(** * Ritual cost / spawn rate mod generators (obm-coe5)

    A shallow embedding of [scripts/generate_cost_mod.py] (the flat
    generator) and [scripts/generate_tiered_cost_mod.py] (the tiered
    generator), and the properties of their parsers, percentage resolution
    and emitters.

    Text is modelled by [string]; a character is a code point below 256
    and is classified the way Python classifies it. Python integers are
    [Z]; Python floats are binary64 values with the rounding written out. *)

From Stdlib Require Import ZArith List String Ascii Bool Lia.
From Stdlib Require Import Decimal DecimalString DecimalPos DecimalZ.
Import ListNotations.

Local Open Scope string_scope.
Local Open Scope Z_scope.

(** ** Characters and the string helpers of the two scripts *)

Module Text.

(** [\d] on the code points modelled here: the ten ASCII digits. *)
Definition is_digit (c : ascii) : bool :=
  let n := N_of_ascii c in ((48 <=? n) && (n <=? 57))%N.

(** [\s] and [str.isspace]: TAB..CR, FS..US, SPACE, NEL and NBSP. *)
Definition is_space (c : ascii) : bool :=
  let n := N_of_ascii c in
  (((9 <=? n) && (n <=? 13)) || ((28 <=? n) && (n <=? 32))
   || (n =? 133) || (n =? 160))%N.

Definition newline : ascii := ascii_of_N 10.
Definition is_newline (c : ascii) : bool := Ascii.eqb c newline.

Definition nl : string := String newline EmptyString.

(** [s.split('#')[0]]: what stands before the first [#]. *)
Fixpoint before_hash (s : string) : string :=
  match s with
  | EmptyString => EmptyString
  | String c r => if Ascii.eqb c "#" then EmptyString else String c (before_hash r)
  end.

(** ['#' in s] and [s.split('#', 1)[1]]: what stands after the first [#]. *)
Fixpoint after_hash (s : string) : option string :=
  match s with
  | EmptyString => None
  | String c r => if Ascii.eqb c "#" then Some r else after_hash r
  end.

Fixpoint lstrip (s : string) : string :=
  match s with
  | EmptyString => EmptyString
  | String c r => if is_space c then lstrip r else s
  end.

Fixpoint rstrip (s : string) : string :=
  match s with
  | EmptyString => EmptyString
  | String c r =>
      match rstrip r with
      | EmptyString => if is_space c then EmptyString else String c EmptyString
      | r' => String c r'
      end
  end.

(** [s.strip()] *)
Definition strip (s : string) : string := rstrip (lstrip s).

(** *** The regular expressions of the parsers

    [re.match] anchors at the start of the subject and lets anything
    follow the match. A pattern is a matcher in continuation passing
    style: a greedy quantifier tries its longest run first and falls
    back to shorter ones when the continuation fails, as the backtracking
    engine does. *)

Definition matcher (A : Type) : Type := string -> option A.

(** A literal. *)
Fixpoint lit {A} (p : string) (k : matcher A) : matcher A :=
  fun s =>
    match p with
    | EmptyString => k s
    | String a p' =>
        match s with
        | String b s' => if Ascii.eqb a b then lit p' k s' else None
        | EmptyString => None
        end
    end.

(** [(c+)] for a character class [f]: the continuation receives the
    captured run. *)
Fixpoint plus1 {A} (f : ascii -> bool) (k : string -> matcher A) : matcher A :=
  fun s =>
    match s with
    | String c r =>
        if f c then
          match plus1 f (fun run => k (String c run)) r with
          | Some a => Some a
          | None => k (String c EmptyString) r
          end
        else None
    | EmptyString => None
    end.

(** The end of a pattern: the match succeeds whatever follows. *)
Definition accept {A} (a : A) : matcher A := fun _ => Some a.

Definition dquote : ascii := ascii_of_N 34.
Definition not_dquote (c : ascii) : bool := negb (Ascii.eqb c dquote).
Definition not_newline (c : ascii) : bool := negb (is_newline c).

(** [\s+] *)
Definition spaces1 {A} (k : matcher A) : matcher A := plus1 is_space (fun _ => k).

(** [int(...)] of a run of digits. *)
Definition int_of_digits (ds : string) : Z :=
  match NilEmpty.uint_of_string ds with
  | Some d => Z.of_uint d
  | None => 0
  end.

(** [(\d+)], the group read by [int]. *)
Definition digits1 {A} (k : Z -> matcher A) : matcher A :=
  plus1 is_digit (fun ds => k (int_of_digits ds)).

(** A double quote, one or more characters other than a double quote
    (captured), a double quote. *)
Definition quoted {A} (k : string -> matcher A) : matcher A :=
  lit (String dquote EmptyString)
      (plus1 not_dquote (fun name => lit (String dquote EmptyString) (k name))).

(** [<keyword>\s+] and a quoted name, group 1. *)
Definition re_record_start (keyword : string) : matcher string :=
  lit keyword (spaces1 (quoted (fun name => accept name))).

(** [cost\s+(\d+)\s+(\d+)], groups 1 and 2 as integers. *)
Definition re_cost : matcher (Z * Z) :=
  lit "cost" (spaces1 (digits1 (fun t => spaces1 (digits1 (fun a => accept (t, a)))))).

(** [<keyword>\s+(\d+)], group 1 as an integer. *)
Definition re_keyword_int (keyword : string) : matcher Z :=
  lit keyword (spaces1 (digits1 (fun n => accept n))).

(** [ritpow\s+(\d+)\s+#\s+(.+)], group 1 as an integer and group 2. *)
Definition re_ritpow : matcher (Z * string) :=
  lit "ritpow"
    (spaces1 (digits1 (fun n =>
       spaces1 (lit "#" (spaces1 (plus1 not_newline (fun g => accept (n, g)))))))).

(** [for line in f] on a file opened in text mode: the lines keep their
    line break, and a carriage return, alone or before a line feed, is
    read as a line feed. *)
Fixpoint file_lines (s : string) : list string :=
  match s with
  | EmptyString => []
  | String c r =>
      if is_newline c then nl :: file_lines r
      else if Ascii.eqb c (ascii_of_N 13) then
        match r with
        | String c' r' => if is_newline c' then nl :: file_lines r' else nl :: file_lines r
        | EmptyString => [nl]
        end
      else
        match file_lines r with
        | [] => [String c EmptyString]
        | l :: ls => String c l :: ls
        end
  end.

(** Every character of the string is in the class [f]. *)
Fixpoint all_chars (f : ascii -> bool) (s : string) : bool :=
  match s with
  | EmptyString => true
  | String c r => f c && all_chars f r
  end.

(** The string does not start with a character of the class [f]. *)
Definition starts_outside (f : ascii -> bool) (s : string) : bool :=
  match s with
  | EmptyString => true
  | String c _ => negb (f c)
  end.

(** The string is not empty and its last character is not white space. *)
Fixpoint ends_nonspace (s : string) : bool :=
  match s with
  | EmptyString => false
  | String c EmptyString => negb (is_space c)
  | String _ r => ends_nonspace r
  end.

(** A name between double quotes. *)
Definition quote (s : string) : string := String dquote (s ++ String dquote EmptyString).

(** The strings of a list, one after the other. *)
Definition join (l : list string) : string := fold_right append EmptyString l.

(** [str(n)], and an integer in a formatted string. *)
Definition str_of_int (n : Z) : string := NilZero.string_of_int (Z.to_int n).

End Text.

(** ** Python dictionaries

    A [dict] keeps its keys in insertion order; assigning to a key that is
    present replaces the value where it stands. *)

Section Dict.
Context {K V : Type} (eqb : K -> K -> bool).

Definition dict : Type := list (K * V).

Fixpoint dict_get (k : K) (d : dict) : option V :=
  match d with
  | [] => None
  | (k', v) :: d' => if eqb k k' then Some v else dict_get k d'
  end.

Fixpoint dict_set (k : K) (v : V) (d : dict) : dict :=
  match d with
  | [] => [(k, v)]
  | (k', v') :: d' =>
      if eqb k k' then (k', v) :: d' else (k', v') :: dict_set k v d'
  end.

Definition dict_mem (k : K) (d : dict) : bool :=
  match dict_get k d with Some _ => true | None => false end.
End Dict.

Arguments dict : clear implicits.

(** ** The parser of [generate_cost_mod.py] *)

Module Flat.
Import Text.

Record cost := mkCost { ctype : Z; amount : Z }.
Record ritual := mkRitual { name : string; costs : list cost }.

Record parser := mkParser { rituals : list ritual; current_ritual : option ritual }.

(** [if current_ritual and current_ritual['costs']: rituals.append(current_ritual)] *)
Definition flush (rs : list ritual) (cur : option ritual) : list ritual :=
  match cur with
  | Some r => match costs r with [] => rs | _ :: _ => rs ++ [r] end
  | None => rs
  end.

(** The body of the loop over the lines. *)
Definition parse_line (st : parser) (line : string) : parser :=
  let line_stripped := strip (before_hash line) in
  match re_record_start "newritual" line_stripped with
  | Some n => mkParser (flush (rituals st) (current_ritual st)) (Some (mkRitual n []))
  | None =>
      match current_ritual st with
      | Some r =>
          match re_cost line_stripped with
          | Some (t, a) =>
              mkParser (rituals st) (Some (mkRitual (name r) (costs r ++ [mkCost t a])))
          | None => st
          end
      | None => st
      end
  end.

Definition parse_lines (lines : list string) : parser :=
  fold_left parse_line lines (mkParser [] None).

(** [parse_ritual_data], on the text of the file. *)
Definition parse_ritual_data (text : string) : list ritual :=
  let st := parse_lines (file_lines text) in
  flush (rituals st) (current_ritual st).

(** What [parse_ritual_data] returns for a file with the given lines. *)
Definition records_of_lines (lines : list string) : list ritual :=
  let st := parse_lines lines in
  flush (rituals st) (current_ritual st).

End Flat.

(** ** The parsers of [generate_tiered_cost_mod.py] *)

Module Tiered.
Import Text.

Record cost := mkCost { ctype : Z; amount : Z }.

Record ritual := mkRitual {
  name : string;
  costs : list cost;
  ritpow : option Z;
  ritpow_name : option string;
  level : option Z
}.

Record spawn := mkSpawn { trait : string; value : Z; comment : string }.
Record monster := mkMonster { mname : string; spawns : list spawn }.

Definition SPAWN_TRAITS : list string :=
  ["spawnmon"; "spawn1d6mon"; "satyrspawn"; "harpyspawn"; "centspawn";
   "minospawn"; "motherspawn"].

(** *** [parse_monster_data] *)

Record mparser := mkMParser { monsters : list monster; current_monster : option monster }.

Definition mflush (ms : list monster) (cur : option monster) : list monster :=
  match cur with
  | Some m => match spawns m with [] => ms | _ :: _ => ms ++ [m] end
  | None => ms
  end.

(** [for trait in SPAWN_TRAITS: ... break]: the first trait whose pattern
    matches the line without its comment. *)
Fixpoint match_trait (traits : list string) (s : string) : option (string * Z) :=
  match traits with
  | [] => None
  | t :: ts =>
      match re_keyword_int t s with
      | Some v => Some (t, v)
      | None => match_trait ts s
      end
  end.

Definition line_comment (line : string) : string :=
  match after_hash line with
  | Some c => strip c
  | None => EmptyString
  end.

Definition parse_monster_line (st : mparser) (line : string) : mparser :=
  match re_record_start "newmonster" line with
  | Some n => mkMParser (mflush (monsters st) (current_monster st)) (Some (mkMonster n []))
  | None =>
      match current_monster st with
      | Some m =>
          match match_trait SPAWN_TRAITS (before_hash line) with
          | Some (t, v) =>
              mkMParser (monsters st)
                (Some (mkMonster (mname m) (spawns m ++ [mkSpawn t v (line_comment line)])))
          | None => st
          end
      | None => st
      end
  end.

Definition parse_monster_lines (lines : list string) : mparser :=
  fold_left parse_monster_line lines (mkMParser [] None).

Definition parse_monster_data (text : string) : list monster :=
  let st := parse_monster_lines (file_lines text) in
  mflush (monsters st) (current_monster st).

(** *** [parse_ritual_data] *)

Record parser := mkParser {
  rituals : list ritual;
  current_ritual : option ritual;
  ritpow_names : dict Z string
}.

Definition flush (rs : list ritual) (cur : option ritual) : list ritual :=
  match cur with
  | Some r => match costs r with [] => rs | _ :: _ => rs ++ [r] end
  | None => rs
  end.

Definition parse_line (st : parser) (line : string) : parser :=
  match re_record_start "newritual" line with
  | Some n =>
      mkParser (flush (rituals st) (current_ritual st))
               (Some (mkRitual n [] None None None))
               (ritpow_names st)
  | None =>
      match current_ritual st with
      | Some r =>
          match re_ritpow line with
          | Some (ritpow_num, g) =>
              let ritpow_name := strip g in
              mkParser (rituals st)
                (Some (mkRitual (name r) (costs r) (Some ritpow_num) (Some ritpow_name) (level r)))
                (dict_set Z.eqb ritpow_num ritpow_name (ritpow_names st))
          | None =>
              match re_keyword_int "level" (before_hash line) with
              | Some l =>
                  mkParser (rituals st)
                    (Some (mkRitual (name r) (costs r) (ritpow r) (ritpow_name r) (Some l)))
                    (ritpow_names st)
              | None =>
                  match re_cost (before_hash line) with
                  | Some (t, a) =>
                      mkParser (rituals st)
                        (Some (mkRitual (name r) (costs r ++ [mkCost t a])
                                        (ritpow r) (ritpow_name r) (level r)))
                        (ritpow_names st)
                  | None => st
                  end
              end
          end
      | None => st
      end
  end.

Definition parse_lines (lines : list string) : parser :=
  fold_left parse_line lines (mkParser [] None []).

Definition parse_ritual_data (text : string) : list ritual * dict Z string :=
  let st := parse_lines (file_lines text) in
  (flush (rituals st) (current_ritual st), ritpow_names st).

End Tiered.

(** ** Python numbers

    [int] is unbounded; [float] is IEEE 754 binary64, every operation
    returning the exact result rounded to nearest, ties to even. A finite
    float is kept as an integer significand and a binary exponent. *)

Module Py.

Inductive exn := OverflowError | ValueError | ZeroDivisionError.

Inductive result (A : Type) : Type :=
| Ok (a : A)
| Raise (e : exn).
Arguments Ok {A} a.
Arguments Raise {A} e.

Definition bind {A B} (r : result A) (f : A -> result B) : result B :=
  match r with
  | Ok a => f a
  | Raise e => Raise e
  end.

Notation "x <- r ;; k" := (bind r (fun x => k))
  (at level 61, r at next level, right associativity).

(** [Finite m e] is the number [m * 2^e]. *)
Inductive float :=
| Finite (m e : Z)
| Inf (negative : bool)
| NaN.

Inductive num :=
| PInt (z : Z)
| PFloat (f : float).

(** The integer part of the base-2 logarithm of [n/d], for [n, d > 0]. *)
Definition floor_log2 (n d : Z) : Z :=
  if d <=? n then Z.log2 (n / d) else - Z.log2_up ((d + n - 1) / n).

(** The integer nearest to [n/d], ties to even, for [n >= 0] and [d > 0]. *)
Definition nearest_even (n d : Z) : Z :=
  let q := n / d in
  let r := n mod d in
  if 2 * r <? d then q
  else if d <? 2 * r then q + 1
  else if Z.even q then q else q + 1.

(** [n/d] rounded to 53 significant bits, exponent at least -1074;
    [None] when the rounded value is 2^1024 or more. *)
Definition round_pos (n d : Z) : option (Z * Z) :=
  let e := Z.max (floor_log2 n d - 52) (-1074) in
  let m := if 0 <=? e then nearest_even n (d * 2 ^ e)
           else nearest_even (n * 2 ^ (- e)) d in
  if 1024 <=? Z.log2 m + e then None else Some (m, e).

(** The float nearest to [n/d], for [d > 0]. *)
Definition round64 (n d : Z) : float :=
  if n =? 0 then Finite 0 0
  else
    match round_pos (Z.abs n) d with
    | Some (m, e) => Finite (Z.sgn n * m) e
    | None => Inf (n <? 0)
    end.

(** [float(z)] *)
Definition float_of_int (z : Z) : result float :=
  match round64 z 1 with
  | Inf _ => Raise OverflowError
  | f => Ok f
  end.

Definition is_zero (f : float) : bool :=
  match f with Finite m _ => m =? 0 | _ => false end.

Definition fmul (x y : float) : float :=
  match x, y with
  | NaN, _ | _, NaN => NaN
  | Inf s, Inf t => Inf (xorb s t)
  | Inf s, Finite m _ | Finite m _, Inf s =>
      if m =? 0 then NaN else Inf (xorb s (m <? 0))
  | Finite m1 e1, Finite m2 e2 =>
      let m := m1 * m2 in
      let e := e1 + e2 in
      if 0 <=? e then round64 (m * 2 ^ e) 1 else round64 m (2 ^ (- e))
  end.

(** [x / y] for a divisor that is not zero. *)
Definition fdiv (x y : float) : float :=
  match x, y with
  | NaN, _ | _, NaN => NaN
  | Inf _, Inf _ => NaN
  | Inf s, Finite m _ => Inf (xorb s (m <? 0))
  | Finite _ _, Inf _ => Finite 0 0
  | Finite m1 e1, Finite m2 e2 =>
      let n := Z.sgn m2 * m1 in
      let d := Z.abs m2 in
      let e := e1 - e2 in
      if 0 <=? e then round64 (n * 2 ^ e) d else round64 n (d * 2 ^ (- e))
  end.

Definition to_float (a : num) : result float :=
  match a with
  | PInt z => float_of_int z
  | PFloat f => Ok f
  end.

(** [a * b] *)
Definition mul (a b : num) : result num :=
  match a, b with
  | PInt x, PInt y => Ok (PInt (x * y))
  | _, _ =>
      x <- to_float a ;;
      y <- to_float b ;;
      Ok (PFloat (fmul x y))
  end.

(** [a / b]: the quotient of two integers is rounded once. *)
Definition truediv (a b : num) : result num :=
  match a, b with
  | PInt x, PInt y =>
      if y =? 0 then Raise ZeroDivisionError
      else
        match round64 (Z.sgn y * x) (Z.abs y) with
        | Inf _ => Raise OverflowError
        | f => Ok (PFloat f)
        end
  | _, _ =>
      x <- to_float a ;;
      y <- to_float b ;;
      if is_zero y then Raise ZeroDivisionError else Ok (PFloat (fdiv x y))
  end.

(** [math.ceil(a)] *)
Definition ceil (a : num) : result Z :=
  match a with
  | PInt z => Ok z
  | PFloat (Finite m e) =>
      Ok (if 0 <=? e then m * 2 ^ e else - ((- m) / 2 ^ (- e)))
  | PFloat (Inf _) => Raise OverflowError
  | PFloat NaN => Raise ValueError
  end.

(** The two lines shared by the three emitters:
    [new = math.ceil(original * percentage / 100)]; [new = max(1, new)]. *)
Definition scale (original : Z) (percentage : num) : result Z :=
  x <- mul (PInt original) percentage ;;
  y <- truediv x (PInt 100) ;;
  c <- ceil y ;;
  Ok (Z.max 1 c).


(** *** The value of a float, as a fraction *)

Definition pow2_num (e : Z) : Z := 2 ^ Z.max e 0.
Definition pow2_den (e : Z) : Z := 2 ^ Z.max (- e) 0.

(** [represents f n d]: the finite float [f] is the number [n/d]. *)
Definition represents (f : float) (n d : Z) : Prop :=
  match f with
  | Finite m e => m * pow2_num e * d = n * pow2_den e
  | _ => False
  end.

(** [ceil(n/d)] in exact arithmetic. *)
Definition exact_ceil (n d : Z) : Z := - ((- n) / d).

(** The percentage [percentage] is the integer [p], as an [int] or as a
    float. *)
Definition int_valued (percentage : num) (p : Z) : Prop :=
  match percentage with
  | PInt z => z = p
  | PFloat f => represents f p 1
  end.

(** The value [scale] returns, read as 1 when it raises. *)
Definition scaled (original : Z) (percentage : num) : Z :=
  match scale original percentage with
  | Ok v => v
  | Raise _ => 1
  end.

(** The percentage lies strictly between 0 and 100. *)
Definition below_100 (percentage : num) : Prop :=
  match percentage with
  | PInt z => 0 < z < 100
  | PFloat (Finite m e) => 0 < m /\ m * pow2_num e < 100 * pow2_den e
  | PFloat _ => False
  end.

End Py.

(** ** Writing a file

    What a block of code writes with [f.write], in order, and what it
    returns or raises. When an exception is raised the text written
    before it stays in the file. *)

Module IO.
Import Py.

Definition io (A : Type) : Type := string * result A.

Definition ret {A} (a : A) : io A := (EmptyString, Ok a).

Definition bind {A B} (m : io A) (f : A -> io B) : io B :=
  match m with
  | (t, Ok a) => let (t', r) := f a in (t ++ t', r)
  | (t, Raise e) => (t, Raise e)
  end.

Definition write (s : string) : io unit := (s, Ok tt).

Definition lift {A} (r : result A) : io A := (EmptyString, r).

Notation "x <~ m ;; k" := (bind m (fun x => k))
  (at level 61, m at next level, right associativity).
Notation "m ;;; k" := (bind m (fun _ => k))
  (at level 61, right associativity).

(** [for a in l: body(a)] with the loop's variables threaded as [s]. *)
Fixpoint for_loop {A S} (body : S -> A -> io S) (s : S) (l : list A) : io S :=
  match l with
  | [] => ret s
  | a :: l' => s' <~ body s a ;; for_loop body s' l'
  end.

Definition for_each {A} (body : A -> io unit) (l : list A) : io unit :=
  for_loop (fun _ a => body a) tt l.

(** The files, by path. *)
Definition files : Type := string -> option string.

Definition set_file (path : string) (text : string) (fs : files) : files :=
  fun p => if String.eqb p path then Some text else fs p.

(** [with open(path, 'w') as f: m]: the file is emptied, then written. *)
Definition with_open_w {A} (path : string) (m : io A) (fs : files) : files * result A :=
  (set_file path (fst m) fs, snd m).

(** [with open(path, 'a') as f: m]: the text is added at the end. *)
Definition with_open_a {A} (path : string) (m : io A) (fs : files) : files * result A :=
  let old := match fs path with Some t => t | None => EmptyString end in
  (set_file path (old ++ fst m) fs, snd m).

End IO.

(** ** The table of resource names, the same in both scripts *)

Definition RESOURCE_TYPES : dict Z string :=
  [(0, "Gold"); (1, "Iron"); (2, "Herbs"); (3, "Fungus"); (4, "Sacrifices");
   (5, "Hands"); (6, "Blood"); (7, "Prisoners"); (8, "Unburied"); (9, "Coins");
   (10, "Silk"); (11, "Relics"); (12, "Gems"); (13, "Monster Parts");
   (14, "Corpses (humanoid)"); (15, "Gems"); (16, "Entrails"); (17, "Corpses");
   (18, "Hearts"); (19, "Skulls")].

(** [RESOURCE_TYPES.get(resource_type, "Resource " + str(resource_type))] *)
Definition resource_name (resource_type : Z) : string :=
  match dict_get Z.eqb resource_type RESOURCE_TYPES with
  | Some n => n
  | None => "Resource " ++ Text.str_of_int resource_type
  end.

(** The cost line both generators write. *)
Definition cost_line (resource_type new_amount original_amount : Z) : string :=
  "cost " ++ Text.str_of_int resource_type ++ " " ++ Text.str_of_int new_amount
  ++ "  # " ++ Text.str_of_int new_amount ++ " " ++ resource_name resource_type
  ++ " (was " ++ Text.str_of_int original_amount ++ ")" ++ Text.nl.

(** A cost line without its comment and the white space around it. *)
Definition cost_head (t v : Z) : string :=
  "cost " ++ Text.str_of_int t ++ " " ++ Text.str_of_int v.

(** The line that selects a record by its name. *)
Definition select_line (keyword name : string) : string :=
  keyword ++ " " ++ String Text.dquote name ++ String Text.dquote Text.nl.

(** ** The emitter of [generate_cost_mod.py] *)

Module FlatGen.
Import Text Py IO Flat.

Definition write_cost (percentage : num) (c : cost) : io unit :=
  new_amount <~ lift (scale (amount c) percentage) ;;
  write (cost_line (ctype c) new_amount (amount c)).

Definition write_ritual (percentage : num) (r : ritual) : io unit :=
  write (select_line "selectritual" (name r)) ;;;
  for_each (write_cost percentage) (costs r) ;;;
  write nl.

(** The loop over the rituals. *)
Definition write_rituals (percentage : num) (rituals : list ritual) : io unit :=
  for_each (write_ritual percentage) rituals.

(** The block of a ritual when every cost is scaled exactly at the
    integral percentage [p]. *)
Definition exact_block (p : Z) (r : ritual) : string :=
  select_line "selectritual" (name r)
  ++ join (map (fun c => cost_line (ctype c) (Z.max 1 (exact_ceil (amount c * p) 100))
                                   (amount c)) (costs r))
  ++ nl.

(** The block of a ritual with the values [scale] returns. *)
Definition scaled_block (percentage : num) (r : ritual) : string :=
  select_line "selectritual" (name r)
  ++ join (map (fun c => cost_line (ctype c) (scaled (amount c) percentage) (amount c))
               (costs r))
  ++ nl.

Section WithRepr.
(** [repr] of a float, as a formatted string shows it: a builtin of the
    language, kept as a parameter. *)
Variable float_repr : float -> string.

Definition format_num (p : num) : string :=
  match p with
  | PInt z => str_of_int z
  | PFloat f => float_repr f
  end.

Definition write_header (n : nat) (percentage : num) : io unit :=
  write ("# OBM Ritual Cost Modifier" ++ nl) ;;;
  write ("# " ++ nl) ;;;
  write ("# This mod adjusts all ritual costs to " ++ format_num percentage
         ++ "% of their original values." ++ nl) ;;;
  write ("# Generated from Ritual Data v5.33.c5m" ++ nl) ;;;
  write ("# " ++ nl) ;;;
  write ("# Total rituals modified: " ++ str_of_int (Z.of_nat n) ++ nl) ;;;
  write ("# " ++ nl ++ nl).

(** What [generate_mod_file] writes and returns. *)
Definition generate (rituals : list ritual) (percentage : num) : io Z :=
  write_header (List.length rituals) percentage ;;;
  write_rituals percentage rituals ;;;
  ret (Z.of_nat (List.length rituals)).

(** [generate_mod_file]; opening the output file is taken to succeed. *)
Definition generate_mod_file (rituals : list ritual) (percentage : num)
    (output_path : string) (fs : files) : files * result Z :=
  with_open_w output_path (generate rituals percentage) fs.
End WithRepr.

End FlatGen.

(** ** The resolver and the emitters of [generate_tiered_cost_mod.py] *)

Module TieredGen.
Import Text Py IO Tiered.

(** The configuration document, with the keys the script reads; a key
    that is absent is [None]. Percentages are JSON integers. *)
Record config := mkConfig {
  cfg_default : option Z;
  cfg_ritpow_modifiers : option (dict string Z);
  cfg_tiers : option (dict string Z);
  cfg_class_tiers : option (dict string string);
  cfg_level_modifiers : option (dict string Z);
  cfg_spawn_modifier : option Z;
  cfg_base_mod : option string
}.

(** [d.get(k, default)] *)
Definition get_or {V} (k : string) (d : dict string V) (default : V) : V :=
  match dict_get String.eqb k d with
  | Some v => v
  | None => default
  end.

(** [{name: str(num) for num, name in ritpow_names.items()}] *)
Definition name_to_id (ritpow_names : dict Z string) : dict string string :=
  fold_left (fun d (it : Z * string) => dict_set String.eqb (snd it) (str_of_int (fst it)) d)
            ritpow_names [].

(** The loop of [process_config] over [class_tiers.items()]. *)
Definition tier_modifiers (tiers : dict string Z) (class_tiers : dict string string)
    (ids : dict string string) : dict string Z :=
  fold_left
    (fun d (it : string * string) =>
       match dict_get String.eqb (fst it) ids with
       | Some ritpow_id => dict_set String.eqb ritpow_id (get_or (snd it) tiers 100) d
       | None => d
       end)
    class_tiers [].

(** [process_config]: the default percentage, the modifiers by category
    id, and the tier tables when the configuration has them. *)
Definition process_config (cfg : config) (ritpow_names : dict Z string)
  : Z * dict string Z * option (dict string Z) * option (dict string string) :=
  match cfg_tiers cfg, cfg_class_tiers cfg with
  | Some tiers, Some class_tiers =>
      (100, tier_modifiers tiers class_tiers (name_to_id ritpow_names),
       Some tiers, Some class_tiers)
  | _, _ =>
      (match cfg_default cfg with Some d => d | None => 100 end,
       match cfg_ritpow_modifiers cfg with Some m => m | None => [] end,
       None, None)
  end.

(** [config.get('level_modifiers', {})] *)
Definition level_modifiers_of (cfg : config) : dict string Z :=
  match cfg_level_modifiers cfg with Some m => m | None => [] end.

(** *** The loop over the rituals *)

Section Resolver.
Variable default_pct : Z.
Variable ritpow_modifiers : dict string Z.
Variable level_modifiers : dict string Z.

Definition class_pct (r : ritual) : Z :=
  match ritpow r with
  | Some n =>
      match dict_get String.eqb (str_of_int n) ritpow_modifiers with
      | Some p => p
      | None => default_pct
      end
  | None => default_pct
  end.

Definition level_pct (r : ritual) : Z :=
  match level r with
  | Some l =>
      match dict_get String.eqb (str_of_int l) level_modifiers with
      | Some p => p
      | None => 100
      end
  | None => 100
  end.

(** [percentage = (class_pct * level_pct) // 100] *)
Definition effective_percentage (r : ritual) : Z :=
  (class_pct r * level_pct r) / 100.

(** The variables of the loop. *)
Record counters := mkCounters {
  current_ritpow : option Z;
  modified_count : Z;
  skipped_count : Z
}.

Definition same_ritpow (a b : option Z) : bool :=
  match a, b with
  | Some x, Some y => x =? y
  | None, None => true
  | _, _ => false
  end.

(** [ritual['ritpow_name'] or "Unknown (" + str(ritpow) + ")"] *)
Definition section_name (r : ritual) : string :=
  let unknown :=
    "Unknown (" ++ match ritpow r with Some n => str_of_int n | None => "None" end ++ ")" in
  match ritpow_name r with
  | Some EmptyString => unknown
  | Some n => n
  | None => unknown
  end.

Definition section_header (r : ritual) (percentage : Z) : string :=
  nl ++ "# --- " ++ section_name r ++ " (" ++ str_of_int percentage ++ "%) ---" ++ nl ++ nl.

Definition write_cost (percentage : Z) (c : cost) : io unit :=
  new_amount <~ lift (scale (amount c) (PInt percentage)) ;;
  write (cost_line (ctype c) new_amount (amount c)).

(** The section header, written when the category changes; the
    category then tracked is returned. *)
Definition write_section (current : option Z) (r : ritual) (percentage : Z)
  : io (option Z) :=
  if same_ritpow (ritpow r) current then ret current
  else write (section_header r percentage) ;;; ret (ritpow r).

(** The selection line, the cost lines and the empty line of a ritual. *)
Definition write_block (percentage : Z) (r : ritual) : io unit :=
  write (select_line "selectritual" (name r)) ;;;
  for_each (write_cost percentage) (costs r) ;;;
  write nl.

(** One turn of the loop. *)
Definition write_ritual (st : counters) (r : ritual) : io counters :=
  let percentage := effective_percentage r in
  if percentage =? 100 then
    ret (mkCounters (current_ritpow st) (modified_count st) (skipped_count st + 1))
  else
    cur <~ write_section (current_ritpow st) r percentage ;;
    write_block percentage r ;;;
    ret (mkCounters cur (modified_count st + 1) (skipped_count st)).

Definition write_rituals (rituals : list ritual) : io counters :=
  for_loop write_ritual (mkCounters None 0 0) rituals.

(** The block of a ritual when every cost is scaled exactly. *)
Definition exact_block (p : Z) (r : ritual) : string :=
  select_line "selectritual" (name r)
  ++ join (map (fun c => cost_line (ctype c) (Z.max 1 (exact_ceil (amount c * p) 100))
                                   (amount c)) (costs r))
  ++ nl.

(** The records the loop skips, and those it writes. *)
Definition skipped (r : ritual) : bool := effective_percentage r =? 100.
Definition applied (r : ritual) : bool := negb (skipped r).

End Resolver.

(** The percentage of the category of a ritual, as [generate_mod_file]
    takes it from [process_config]. *)
Definition category_percentage (cfg : config) (ritpow_names : dict Z string)
    (r : ritual) : Z :=
  let '(default_pct, ritpow_modifiers, _, _) := process_config cfg ritpow_names in
  class_pct default_pct ritpow_modifiers r.

(** A mapping from integers written with the keys as JSON has them. *)
Definition string_keys (d : dict Z Z) : dict string Z :=
  map (fun it => (str_of_int (fst it), snd it)) d.

Section WithHeader.
(** The comment block written before the loop (the fixed title lines,
    the base mod when there is one, and the tables of the
    configuration); it has no part in what the loop does. *)
Variable write_header : config -> dict Z string -> string -> files -> io unit.

Definition generate (rituals : list ritual) (cfg : config)
    (ritpow_names : dict Z string) (project_dir : string) (fs : files) : io (Z * Z) :=
  let '(default_pct, ritpow_modifiers, _, _) := process_config cfg ritpow_names in
  let level_modifiers := level_modifiers_of cfg in
  write_header cfg ritpow_names project_dir fs ;;;
  st <~ write_rituals default_pct ritpow_modifiers level_modifiers rituals ;;
  ret (modified_count st, skipped_count st).

Definition generate_mod_file (rituals : list ritual) (cfg : config)
    (ritpow_names : dict Z string) (output_path project_dir : string) (fs : files)
  : files * result (Z * Z) :=
  with_open_w output_path (generate rituals cfg ritpow_names project_dir fs) fs.
End WithHeader.

(** *** [generate_spawn_modifications] *)

Fixpoint repeat_char (c : ascii) (n : nat) : string :=
  match n with
  | O => EmptyString
  | S n' => String c (repeat_char c n')
  end.

Definition rule : string := "# " ++ repeat_char "=" 50 ++ nl.

(** The two formatted strings of a spawn line, with and without the
    comment of the source line. *)
Definition spawn_line (s : spawn) (new_value : Z) : string :=
  match comment s with
  | EmptyString =>
      trait s ++ " " ++ str_of_int new_value ++ "  # was " ++ str_of_int (value s) ++ nl
  | c =>
      trait s ++ " " ++ str_of_int new_value ++ "  # was " ++ str_of_int (value s)
      ++ "; " ++ c ++ nl
  end.

Definition write_spawn (spawn_modifier : Z) (s : spawn) : io unit :=
  new_value <~ lift (scale (value s) (PInt spawn_modifier)) ;;
  write (spawn_line s new_value).

Definition write_monster (spawn_modifier : Z) (modified_count : Z) (m : monster) : io Z :=
  write (select_line "selectmonster" (mname m)) ;;;
  for_each (write_spawn spawn_modifier) (spawns m) ;;;
  write nl ;;;
  ret (modified_count + 1).

Definition generate_spawn (monsters : list monster) (spawn_modifier : Z) : io Z :=
  write (nl ++ rule) ;;;
  write ("# SPAWN RATE MODIFICATIONS" ++ nl) ;;;
  write rule ;;;
  write ("# Global spawn modifier: " ++ str_of_int spawn_modifier ++ "%" ++ nl) ;;;
  write ("# " ++ nl ++ nl) ;;;
  for_loop (write_monster spawn_modifier) 0 monsters.

(** The comment lines that open the spawn section. *)
Definition spawn_header (spawn_modifier : Z) : string :=
  (nl ++ rule) ++ ("# SPAWN RATE MODIFICATIONS" ++ nl) ++ rule
  ++ ("# Global spawn modifier: " ++ str_of_int spawn_modifier ++ "%" ++ nl)
  ++ ("# " ++ nl ++ nl).

(** The block of a monster when every spawn value is scaled exactly. *)
Definition exact_spawn_block (p : Z) (m : monster) : string :=
  select_line "selectmonster" (mname m)
  ++ join (map (fun s => spawn_line s (Z.max 1 (exact_ceil (value s * p) 100))) (spawns m))
  ++ nl.

Definition generate_spawn_modifications (monsters : list monster) (spawn_modifier : Z)
    (output_file : string) (fs : files) : files * result Z :=
  if spawn_modifier =? 100 then (fs, Ok 0)
  else with_open_a output_file (generate_spawn monsters spawn_modifier) fs.

(** The two passes of [main] over the output file: the ritual pass, then
    the spawn pass when the [spawn_modifier] of the configuration (100
    when absent) is not 100. What [main] prints is left out; the result
    holds the two counts and the count of the spawn pass when it ran. *)
Definition main_passes
    (write_header : config -> dict Z string -> string -> files -> io unit)
    (rituals : list ritual) (monsters : list monster) (cfg : config)
    (ritpow_names : dict Z string) (output_path project_dir : string) (fs : files)
  : files * result (Z * Z * option Z) :=
  match generate_mod_file write_header rituals cfg ritpow_names output_path project_dir fs with
  | (fs1, Raise e) => (fs1, Raise e)
  | (fs1, Ok (modified, skipped)) =>
      let spawn_modifier := match cfg_spawn_modifier cfg with Some m => m | None => 100 end in
      if spawn_modifier =? 100 then (fs1, Ok (modified, skipped, None))
      else
        match generate_spawn_modifications monsters spawn_modifier output_path fs1 with
        | (fs2, Ok n) => (fs2, Ok (modified, skipped, Some n))
        | (fs2, Raise e) => (fs2, Raise e)
        end
  end.

End TieredGen.

(** * Properties *)

(** ** Rounding to binary64 *)

Module RoundFacts.
Import Py.

Lemma nearest_even_bounds n d :
  0 <= n -> 0 < d ->
  2 * n - d <= 2 * d * nearest_even n d <= 2 * n + d.
Proof.
  intros Hn Hd. unfold nearest_even.
  pose proof (Z.div_mod n d ltac:(lia)) as E.
  pose proof (Z.mod_pos_bound n d Hd) as B.
  destruct (Z.ltb_spec (2 * (n mod d)) d);
    [|destruct (Z.ltb_spec d (2 * (n mod d))); [|destruct (Z.even (n / d))]]; nia.
Qed.

Lemma nearest_even_exact k d : 0 < d -> nearest_even (k * d) d = k.
Proof.
  intros Hd. unfold nearest_even.
  rewrite Z.div_mul, Z.mod_mul by lia.
  destruct (Z.ltb_spec (2 * 0) d); [reflexivity | lia].
Qed.

Lemma nearest_even_one a : nearest_even a 1 = a.
Proof.
  pose proof (nearest_even_exact a 1 ltac:(lia)) as E.
  now rewrite Z.mul_1_r in E.
Qed.

Lemma nearest_even_scale n d c :
  0 < d -> 0 < c -> nearest_even (n * c) (d * c) = nearest_even n d.
Proof.
  intros Hd Hc. unfold nearest_even.
  rewrite Z.div_mul_cancel_r, Z.mul_mod_distr_r by lia.
  destruct (Z.ltb_spec (2 * (n mod d)) d), (Z.ltb_spec (2 * (n mod d * c)) (d * c));
    try nia; try reflexivity.
  destruct (Z.ltb_spec d (2 * (n mod d))), (Z.ltb_spec (d * c) (2 * (n mod d * c)));
    try nia; reflexivity.
Qed.

Lemma nearest_even_le n d k :
  0 <= n -> 0 < d -> n <= k * d -> nearest_even n d <= k.
Proof.
  intros Hn Hd Hk.
  pose proof (nearest_even_bounds n d Hn Hd) as [_ U].
  destruct (Z.eq_dec n (k * d)) as [->|Hne].
  - rewrite nearest_even_exact by lia. lia.
  - nia.
Qed.

Lemma nearest_even_nonneg n d : 0 <= n -> 0 < d -> 0 <= nearest_even n d.
Proof.
  intros Hn Hd. pose proof (nearest_even_bounds n d Hn Hd). nia.
Qed.

Lemma floor_log2_scale n d c :
  0 < n -> 0 < d -> 0 < c -> floor_log2 (n * c) (d * c) = floor_log2 n d.
Proof.
  intros Hn Hd Hc. unfold floor_log2.
  destruct (Z.leb_spec d n), (Z.leb_spec (d * c) (n * c)); try nia.
  - now rewrite Z.div_mul_cancel_r by lia.
  - do 2 f_equal.
    pose proof (Z.div_mod (d + n - 1) n ltac:(lia)) as E.
    pose proof (Z.mod_pos_bound (d + n - 1) n Hn) as B.
    symmetry. apply Z.div_unique with (r := ((d + n - 1) mod n + 1) * c - 1); nia.
Qed.

Lemma round_pos_scale n d c :
  0 < n -> 0 < d -> 0 < c -> round_pos (n * c) (d * c) = round_pos n d.
Proof.
  intros Hn Hd Hc. unfold round_pos.
  rewrite floor_log2_scale by assumption.
  set (e := Z.max (floor_log2 n d - 52) (-1074)).
  destruct (Z.leb_spec 0 e).
  - replace (d * c * 2 ^ e) with (d * 2 ^ e * c) by ring.
    rewrite nearest_even_scale by (try apply Z.mul_pos_pos; try apply Z.pow_pos_nonneg; lia).
    reflexivity.
  - replace (n * c * 2 ^ (- e)) with (n * 2 ^ (- e) * c) by ring.
    rewrite nearest_even_scale by lia. reflexivity.
Qed.

Lemma round64_scale n d c :
  0 < d -> 0 < c -> round64 (n * c) (d * c) = round64 n d.
Proof.
  intros Hd Hc. unfold round64.
  destruct (Z.eqb_spec n 0) as [->|Hn]; [reflexivity|].
  destruct (Z.eqb_spec (n * c) 0); [nia|].
  replace (Z.abs (n * c)) with (Z.abs n * c) by (rewrite Z.abs_mul; lia).
  rewrite round_pos_scale by lia.
  replace (Z.sgn (n * c)) with (Z.sgn n) by (rewrite Z.sgn_mul; lia).
  replace (n * c <? 0) with (n <? 0); [reflexivity|].
  destruct (Z.ltb_spec n 0), (Z.ltb_spec (n * c) 0); try reflexivity; nia.
Qed.

(** Rounding depends on the quotient only. *)
Lemma round64_ratio n1 d1 n2 d2 :
  0 < d1 -> 0 < d2 -> n1 * d2 = n2 * d1 -> round64 n1 d1 = round64 n2 d2.
Proof.
  intros H1 H2 E.
  rewrite <- (round64_scale n1 d1 d2), <- (round64_scale n2 d2 d1) by assumption.
  rewrite E. f_equal; ring.
Qed.

Lemma pow2_num_pos e : 0 < pow2_num e.
Proof. apply Z.pow_pos_nonneg; lia. Qed.

Lemma pow2_den_pos e : 0 < pow2_den e.
Proof. apply Z.pow_pos_nonneg; lia. Qed.

Lemma pow2_add e1 e2 :
  pow2_num (e1 + e2) * (pow2_den e1 * pow2_den e2)
  = pow2_num e1 * pow2_num e2 * pow2_den (e1 + e2).
Proof.
  unfold pow2_num, pow2_den.
  rewrite <- !Z.pow_add_r by lia. f_equal. lia.
Qed.

Lemma pow2_sub e1 e2 :
  pow2_num (e1 - e2) * (pow2_den e1 * pow2_num e2)
  = pow2_num e1 * pow2_den e2 * pow2_den (e1 - e2).
Proof.
  unfold pow2_num, pow2_den.
  rewrite <- !Z.pow_add_r by lia. f_equal. lia.
Qed.

Lemma round_by_exponent m e :
  (if 0 <=? e then round64 (m * 2 ^ e) 1 else round64 m (2 ^ (- e)))
  = round64 (m * pow2_num e) (pow2_den e).
Proof.
  unfold pow2_num, pow2_den. destruct (Z.leb_spec 0 e).
  - rewrite Z.max_l, Z.max_r by lia. reflexivity.
  - rewrite Z.max_r, Z.max_l by lia. now rewrite Z.mul_1_r.
Qed.

(** The product of two finite floats is the exact product, rounded. *)
Lemma fmul_correct x y n1 d1 n2 d2 :
  0 < d1 -> 0 < d2 -> represents x n1 d1 -> represents y n2 d2 ->
  fmul x y = round64 (n1 * n2) (d1 * d2).
Proof.
  intros H1 H2 Rx Ry.
  destruct x as [m1 e1| |]; try contradiction.
  destruct y as [m2 e2| |]; try contradiction.
  cbn [fmul represents] in *. rewrite round_by_exponent.
  pose proof (pow2_add e1 e2) as P.
  pose proof (pow2_den_pos (e1 + e2)). pose proof (pow2_den_pos e1).
  pose proof (pow2_den_pos e2).
  apply round64_ratio; try lia.
  apply Z.mul_reg_r with (p := pow2_den e1 * pow2_den e2); [lia|].
  transitivity (m1 * m2 * (pow2_num (e1 + e2) * (pow2_den e1 * pow2_den e2)) * (d1 * d2));
    [ring|].
  rewrite P.
  transitivity ((m1 * pow2_num e1 * d1) * (m2 * pow2_num e2 * d2) * pow2_den (e1 + e2));
    [ring|].
  rewrite Rx, Ry. ring.
Qed.

Lemma round_by_exponent_div n d e :
  (if 0 <=? e then round64 (n * 2 ^ e) d else round64 n (d * 2 ^ (- e)))
  = round64 (n * pow2_num e) (d * pow2_den e).
Proof.
  unfold pow2_num, pow2_den. destruct (Z.leb_spec 0 e).
  - rewrite Z.max_l, Z.max_r by lia. now rewrite Z.mul_1_r.
  - rewrite Z.max_r, Z.max_l by lia. now rewrite Z.mul_1_r.
Qed.

(** The quotient of two finite floats, the divisor positive, is the exact
    quotient, rounded. *)
Lemma fdiv_correct x y n1 d1 n2 d2 :
  0 < d1 -> 0 < d2 -> 0 < n2 -> represents x n1 d1 -> represents y n2 d2 ->
  fdiv x y = round64 (n1 * d2) (d1 * n2).
Proof.
  intros H1 H2 Hn Rx Ry.
  destruct x as [m1 e1| |]; try contradiction.
  destruct y as [m2 e2| |]; try contradiction.
  cbn [fdiv represents] in *.
  pose proof (pow2_num_pos e2). pose proof (pow2_den_pos e2).
  pose proof (pow2_den_pos e1). pose proof (pow2_den_pos (e1 - e2)).
  assert (0 < m2) by nia.
  rewrite round_by_exponent_div.
  replace (Z.sgn m2 * m1) with m1 by (rewrite Z.sgn_pos; lia).
  replace (Z.abs m2) with m2 by lia.
  pose proof (pow2_sub e1 e2) as P.
  apply round64_ratio; try nia.
  apply Z.mul_reg_r with (p := pow2_den e1 * pow2_num e2); [nia|].
  transitivity (m1 * d1 * n2 * (pow2_num (e1 - e2) * (pow2_den e1 * pow2_num e2)));
    [ring|].
  rewrite P.
  transitivity ((m1 * pow2_num e1 * d1) * (n2 * pow2_den e2) * pow2_den (e1 - e2));
    [ring|].
  rewrite Rx, <- Ry. ring.
Qed.

Lemma round_pos_small_int a :
  0 < a < 2 ^ 53 ->
  round_pos a 1 = Some (a * 2 ^ (52 - Z.log2 a), Z.log2 a - 52).
Proof.
  intros Ha. unfold round_pos, floor_log2.
  assert (L : 0 <= Z.log2 a < 53).
  { split; [apply Z.log2_nonneg | apply Z.log2_lt_pow2; lia]. }
  destruct (Z.leb_spec 1 a); [|lia].
  rewrite Z.div_1_r, Z.max_l by lia.
  set (e := Z.log2 a - 52).
  assert (M : (if 0 <=? e then nearest_even a (1 * 2 ^ e)
               else nearest_even (a * 2 ^ (- e)) 1) = a * 2 ^ (52 - Z.log2 a)).
  { destruct (Z.leb_spec 0 e).
    - assert (E0 : e = 0) by lia. rewrite E0.
      replace (52 - Z.log2 a) with 0 by lia.
      change (1 * 2 ^ 0) with 1. change (2 ^ 0) with 1.
      rewrite Z.mul_1_r. apply nearest_even_one.
    - replace (- e) with (52 - Z.log2 a) by lia. apply nearest_even_one. }
  rewrite M.
  rewrite Z.log2_mul_pow2 by lia.
  destruct (Z.leb_spec 1024 (52 - Z.log2 a + Z.log2 a + e)); [lia | reflexivity].
Qed.

(** An integer below 2^53 in size converts to a float without error. *)
Lemma float_of_int_exact k :
  Z.abs k < 2 ^ 53 -> exists f, float_of_int k = Ok f /\ represents f k 1.
Proof.
  intros Hk. unfold float_of_int, round64.
  destruct (Z.eqb_spec k 0) as [->|Hn].
  - exists (Finite 0 0). split; reflexivity.
  - rewrite round_pos_small_int by lia.
    eexists. split; [reflexivity|].
    cbn [represents]. unfold pow2_num, pow2_den.
    assert (L : 0 <= Z.log2 (Z.abs k) < 53).
    { split; [apply Z.log2_nonneg | apply Z.log2_lt_pow2; lia]. }
    rewrite Z.max_r, Z.max_l by lia.
    replace (- (Z.log2 (Z.abs k) - 52)) with (52 - Z.log2 (Z.abs k)) by lia.
    replace (Z.sgn k * (Z.abs k * 2 ^ (52 - Z.log2 (Z.abs k))))
      with (Z.abs k * Z.sgn k * 2 ^ (52 - Z.log2 (Z.abs k))) by ring.
    rewrite Z.abs_sgn. change (2 ^ 0) with 1. ring.
Qed.

Lemma exact_ceil_spec n d :
  0 < d -> d * (exact_ceil n d - 1) < n <= d * exact_ceil n d.
Proof.
  intros Hd. unfold exact_ceil.
  pose proof (Z.div_mod (- n) d ltac:(lia)).
  pose proof (Z.mod_pos_bound (- n) d Hd). nia.
Qed.

Lemma floor_log2_hundredths n : 0 < n < 2 ^ 53 -> floor_log2 n 100 <= 46.
Proof.
  intros Hn. unfold floor_log2. destruct (Z.leb_spec 100 n).
  - assert (0 < n / 100) by (apply Z.div_str_pos; lia).
    assert (n / 100 < 2 ^ 47) by (apply Z.div_lt_upper_bound; lia).
    assert (Z.log2 (n / 100) < 47) by (apply Z.log2_lt_pow2; lia). lia.
  - pose proof (Z.log2_up_nonneg ((100 + n - 1) / n)). lia.
Qed.

(** Below 2^53 the rounding of [n/100] does not change its ceiling. *)
Lemma ceil_round_hundredths n :
  0 < n < 2 ^ 53 ->
  exists m e, round64 n 100 = Finite m e /\
              ceil (PFloat (Finite m e)) = Ok (exact_ceil n 100).
Proof.
  intros Hn. unfold round64.
  destruct (Z.eqb_spec n 0); [lia|].
  replace (Z.abs n) with n by lia. replace (Z.sgn n) with 1 by lia.
  unfold round_pos.
  pose proof (floor_log2_hundredths n Hn) as FL.
  set (e := Z.max (floor_log2 n 100 - 52) (-1074)).
  assert (He : -1074 <= e <= -6) by lia.
  destruct (Z.leb_spec 0 e); [lia|].
  set (s := - e). assert (Hs : 6 <= s <= 1074) by lia.
  assert (P : 64 <= 2 ^ s).
  { change 64 with (2 ^ 6). apply Z.pow_le_mono_r; lia. }
  set (m := nearest_even (n * 2 ^ s) 100).
  pose proof (nearest_even_bounds (n * 2 ^ s) 100 ltac:(nia) ltac:(lia)) as B.
  fold m in B.
  pose proof (exact_ceil_spec n 100 ltac:(lia)) as C.
  set (K := exact_ceil n 100) in *.
  assert (U : m <= K * 2 ^ s).
  { apply nearest_even_le; nia. }
  assert (Lw : (K - 1) * 2 ^ s < m) by nia.
  assert (Hm : 0 < m) by nia.
  assert (LG : Z.log2 m <= 52 + s).
  { assert (m <= n * 2 ^ s) by (apply nearest_even_le; nia).
    assert (Z.log2 m <= Z.log2 (n * 2 ^ s)) by (apply Z.log2_le_mono; lia).
    rewrite Z.log2_mul_pow2 in * by lia.
    assert (Z.log2 n < 53) by (apply Z.log2_lt_pow2; lia). lia. }
  destruct (Z.leb_spec 1024 (Z.log2 m + e)); [lia|].
  exists (1 * m), e. split; [reflexivity|].
  cbn [ceil]. destruct (Z.leb_spec 0 e); [lia|]. fold s.
  f_equal. rewrite Z.mul_1_l.
  assert (E : (- m) / 2 ^ s = - K).
  { symmetry. apply Z.div_unique with (r := K * 2 ^ s - m); nia. }
  rewrite E. lia.
Qed.

Lemma ceil_round_hundredths_nonneg n :
  0 <= n < 2 ^ 53 ->
  exists m e, round64 n 100 = Finite m e /\
              ceil (PFloat (Finite m e)) = Ok (exact_ceil n 100).
Proof.
  intros Hn. destruct (Z.eq_dec n 0) as [->|].
  - exists 0, 0. split; reflexivity.
  - apply ceil_round_hundredths. lia.
Qed.

Lemma represents_self m e : represents (Finite m e) (m * pow2_num e) (pow2_den e).
Proof. reflexivity. Qed.

Lemma floor_log2_le n d k :
  0 < n -> 0 < d -> 1 <= k -> n <= k * d -> floor_log2 n d <= Z.log2 k.
Proof.
  intros Hn Hd Hk Hle. unfold floor_log2. destruct (Z.leb_spec d n).
  - apply Z.log2_le_mono. apply Z.div_le_upper_bound; lia.
  - pose proof (Z.log2_up_nonneg ((d + n - 1) / n)).
    pose proof (Z.log2_nonneg k). lia.
Qed.

(** A quotient that is at most the integer [k] rounds to a float that is
    at most [k]. *)
Lemma round64_le_int n d k :
  0 <= n -> 0 < d -> 1 <= k < 2 ^ 52 -> n <= k * d ->
  exists m e, round64 n d = Finite m e /\ 0 <= m /\
              m * pow2_num e <= k * pow2_den e.
Proof.
  intros Hn Hd Hk Hle. unfold round64.
  destruct (Z.eqb_spec n 0) as [->|Hn0].
  - exists 0, 0. repeat split; try lia.
    pose proof (pow2_den_pos 0). nia.
  - replace (Z.abs n) with n by lia. replace (Z.sgn n) with 1 by lia.
    unfold round_pos.
    pose proof (floor_log2_le n d k ltac:(lia) Hd ltac:(lia) Hle) as FL.
    assert (LK : Z.log2 k < 52) by (apply Z.log2_lt_pow2; lia).
    set (e := Z.max (floor_log2 n d - 52) (-1074)).
    assert (He : -1074 <= e < 0) by lia.
    destruct (Z.leb_spec 0 e); [lia|].
    set (s := - e). assert (Hs : 0 < s) by lia.
    assert (P : 0 < 2 ^ s) by (apply Z.pow_pos_nonneg; lia).
    set (m := nearest_even (n * 2 ^ s) d).
    assert (U : m <= k * 2 ^ s) by (apply nearest_even_le; nia).
    assert (Lw : 0 <= m) by (apply nearest_even_nonneg; nia).
    assert (LG : Z.log2 m + e < 1024).
    { destruct (Z.eq_dec m 0) as [->|]; [cbn; lia|].
      assert (Z.log2 m <= Z.log2 (k * 2 ^ s)) by (apply Z.log2_le_mono; lia).
      rewrite Z.log2_mul_pow2 in * by lia. lia. }
    destruct (Z.leb_spec 1024 (Z.log2 m + e)); [lia|].
    exists (1 * m), e. split; [reflexivity|].
    unfold pow2_num, pow2_den. rewrite Z.max_r, Z.max_l by lia.
    fold s. cbn [Z.pow]. lia.
Qed.

Lemma ceil_le_int m e k :
  m * pow2_num e <= k * pow2_den e ->
  exists c, ceil (PFloat (Finite m e)) = Ok c /\ c <= k.
Proof.
  unfold pow2_num, pow2_den. intros H. cbn [ceil].
  eexists. split; [reflexivity|].
  destruct (Z.leb_spec 0 e).
  - rewrite Z.max_l, Z.max_r in H by lia. cbn [Z.pow] in H. lia.
  - rewrite Z.max_r, Z.max_l in H by lia. cbn [Z.pow] in H.
    assert (0 < 2 ^ (- e)) by (apply Z.pow_pos_nonneg; lia).
    assert (- k <= (- m) / 2 ^ (- e)) by (apply Z.div_le_lower_bound; lia).
    lia.
Qed.

End RoundFacts.

(** ** The scaling rule *)

Module ScaleFacts.
Import Py RoundFacts.

Lemma float_100 : float_of_int 100 = Ok (Finite (100 * 2 ^ 46) (-46)).
Proof. vm_compute. reflexivity. Qed.

Lemma represents_100 : represents (Finite (100 * 2 ^ 46) (-46)) 100 1.
Proof. vm_compute. reflexivity. Qed.

(** [original * percentage / 100] for an integral percentage is the
    quotient rounded once, as long as the product is below 2^53. *)
Lemma quotient_rounded_once original p percentage :
  0 <= original -> 0 < p -> original * p < 2 ^ 53 -> int_valued percentage p ->
  (x <- mul (PInt original) percentage ;; truediv x (PInt 100))
  = Ok (PFloat (round64 (original * p) 100)).
Proof.
  intros Ho Hp Hb Hv. destruct percentage as [z|f]; cbn [int_valued] in Hv.
  - subst z. cbn [mul bind truediv].
    change (100 =? 0) with false. cbv iota.
    change (Z.sgn 100) with 1. change (Z.abs 100) with 100. rewrite Z.mul_1_l.
    destruct (ceil_round_hundredths_nonneg (original * p)) as (m & e & E & _); [nia|].
    now rewrite E.
  - assert (Hob : Z.abs original < 2 ^ 53) by nia.
    destruct (float_of_int_exact original Hob) as (fo & Eo & Ro).
    cbn [mul to_float]. rewrite Eo. cbn [bind truediv to_float].
    rewrite float_100. cbn [bind is_zero].
    change (100 * 2 ^ 46 =? 0) with false. cbv iota.
    rewrite (fmul_correct fo f original 1 p 1) by (try lia; assumption).
    assert (Hpb : Z.abs (original * p) < 2 ^ 53) by nia.
    destruct (float_of_int_exact (original * p) Hpb) as (fp & Ep & Rp).
    unfold float_of_int in Ep. change (1 * 1) with 1.
    destruct (round64 (original * p) 1) as [m e| |] eqn:Er; try discriminate;
      injection Ep as <-; [|contradiction].
    rewrite (fdiv_correct _ _ (original * p) 1 100 1) by (try lia; auto using represents_100).
    rewrite Z.mul_1_r. reflexivity.
Qed.

Lemma scale_exact original p percentage :
  0 <= original -> 0 < p -> original * p < 2 ^ 53 -> int_valued percentage p ->
  scale original percentage = Ok (Z.max 1 (exact_ceil (original * p) 100)).
Proof.
  intros Ho Hp Hb Hv. unfold scale.
  pose proof (quotient_rounded_once original p percentage Ho Hp Hb Hv) as Q.
  destruct (mul (PInt original) percentage) as [x|ex]; cbn [bind] in *; [|discriminate].
  rewrite Q. cbn [bind].
  destruct (ceil_round_hundredths_nonneg (original * p)) as (m & e & E & C); [nia|].
  rewrite E, C. reflexivity.
Qed.

(** With an [int] percentage only the product matters. *)
Lemma scale_int_exact original p :
  0 <= original * p < 2 ^ 53 ->
  scale original (PInt p) = Ok (Z.max 1 (exact_ceil (original * p) 100)).
Proof.
  intros Hb. unfold scale. cbn [mul bind truediv].
  change (100 =? 0) with false. cbv iota.
  change (Z.sgn 100) with 1. change (Z.abs 100) with 100. rewrite Z.mul_1_l.
  destruct (ceil_round_hundredths_nonneg (original * p) Hb) as (m & e & E & C).
  rewrite E. cbn [bind]. rewrite C. reflexivity.
Qed.

Lemma exact_ceil_mul n d : 0 < d -> exact_ceil (n * d) d = n.
Proof.
  intros Hd. unfold exact_ceil.
  replace (- (n * d)) with ((- n) * d) by ring. rewrite Z.div_mul by lia. lia.
Qed.

(** One unit at a percentage strictly between 0 and 100 stays one unit. *)
Lemma scale_one percentage : below_100 percentage -> scale 1 percentage = Ok 1.
Proof.
  intros Hb. destruct percentage as [z|f]; cbn [below_100] in Hb.
  - rewrite (scale_exact 1 z (PInt z)) by (try reflexivity; lia).
    f_equal. pose proof (exact_ceil_spec (1 * z) 100 ltac:(lia)). lia.
  - destruct f as [m e| |]; try contradiction. destruct Hb as [Hm Hlt].
    unfold scale. cbn [mul to_float].
    destruct (float_of_int_exact 1 ltac:(cbn; lia)) as (f1 & E1 & R1).
    rewrite E1. cbn [bind].
    rewrite (fmul_correct f1 (Finite m e) 1 1 _ _ ltac:(lia) (pow2_den_pos e) R1
               (represents_self m e)).
    rewrite !Z.mul_1_l.
    pose proof (pow2_num_pos e). pose proof (pow2_den_pos e).
    destruct (round64_le_int (m * pow2_num e) (pow2_den e) 100
                ltac:(nia) (pow2_den_pos e) ltac:(lia) ltac:(lia))
      as (mx & ex & Ex & Hx0 & Hx).
    rewrite Ex. cbn [truediv to_float]. rewrite float_100. cbn [bind is_zero].
    change (100 * 2 ^ 46 =? 0) with false. cbv iota.
    pose proof (pow2_num_pos ex). pose proof (pow2_den_pos ex).
    rewrite (fdiv_correct _ _ _ _ 100 1 (pow2_den_pos ex) ltac:(lia) ltac:(lia)
               (represents_self mx ex) represents_100).
    destruct (round64_le_int (mx * pow2_num ex * 1) (pow2_den ex * 100) 1
                ltac:(nia) ltac:(lia) ltac:(lia) ltac:(lia))
      as (my & ey & Ey & Hy0 & Hy).
    rewrite Ey. cbn [bind].
    destruct (ceil_le_int my ey 1 Hy) as (c & Ec & Hc).
    rewrite Ec. cbn [bind]. f_equal. lia.
Qed.

End ScaleFacts.

(** ** Claim C1: the scaled value *)

Module C1.
Import Py ScaleFacts.

(** C1, counterexample. At 100 percent the flat generator does not always
    emit the original value: [9007199254740993 * 100.0 / 100] is the float
    9007199254740992.0, so a cost of 2^53 + 1 is emitted as 2^53, which is
    not [max(1, ceil(original * 100 / 100))]. *)
Lemma scaled_value_inexact :
  scale 9007199254740993 (PFloat (Finite 100 0)) = Ok 9007199254740992
  /\ FlatGen.write_cost (PFloat (Finite 100 0)) (Flat.mkCost 0 9007199254740993)
     = IO.write (cost_line 0 9007199254740992 9007199254740993)
  /\ 9007199254740992 <> Z.max 1 (exact_ceil (9007199254740993 * 100) 100).
Proof. vm_compute. repeat split; discriminate. Qed.

(** C1, as amended. For an attribute value [original >= 1] and an integral
    percentage [p > 0] (an [int], or a float whose value is an integer)
    with [original * p < 2^53], the value the emitters write is
    [max(1, ceil(original * p / 100))] in exact arithmetic; at [p = 100] it
    is [original]; and a value of 1 at any percentage strictly between 0
    and 100, integral or not, is written as 1. The three emitters (flat
    cost line, tiered cost line, spawn line) write that value. *)
Theorem scaled_value_exact original p percentage :
  1 <= original -> 0 < p -> original * p < 2 ^ 53 -> int_valued percentage p ->
  let v := Z.max 1 (exact_ceil (original * p) 100) in
  scale original percentage = Ok v
  /\ (p = 100 -> v = original)
  /\ (forall q, below_100 q -> scale 1 q = Ok 1)
  /\ (forall t, FlatGen.write_cost percentage (Flat.mkCost t original)
                = IO.write (cost_line t v original))
  /\ (forall t, TieredGen.write_cost p (Tiered.mkCost t original)
                = IO.write (cost_line t v original))
  /\ (forall tr cm, TieredGen.write_spawn p (Tiered.mkSpawn tr original cm)
                    = IO.write (TieredGen.spawn_line (Tiered.mkSpawn tr original cm) v)).
Proof.
  intros Ho Hp Hb Hv v.
  assert (E : scale original percentage = Ok v) by (apply scale_exact; auto; lia).
  assert (Ei : scale original (PInt p) = Ok v) by (apply scale_exact; auto; try lia; reflexivity).
  split; [exact E|]. split.
  - intros ->. subst v. rewrite exact_ceil_mul; lia.
  - split; [exact scale_one|].
    repeat split; intros; unfold FlatGen.write_cost, TieredGen.write_cost,
      TieredGen.write_spawn; cbn [Flat.amount Flat.ctype Tiered.amount Tiered.ctype
      Tiered.value]; rewrite ?E, ?Ei; reflexivity.
Qed.

Lemma scaled_value_exact_witness :
  let v := Z.max 1 (exact_ceil (10 * 40) 100) in
  scale 10 (PInt 40) = Ok v
  /\ (40 = 100 -> v = 10)
  /\ (forall q, below_100 q -> scale 1 q = Ok 1)
  /\ (forall t, FlatGen.write_cost (PInt 40) (Flat.mkCost t 10)
                = IO.write (cost_line t v 10))
  /\ (forall t, TieredGen.write_cost 40 (Tiered.mkCost t 10)
                = IO.write (cost_line t v 10))
  /\ (forall tr cm, TieredGen.write_spawn 40 (Tiered.mkSpawn tr 10 cm)
                    = IO.write (TieredGen.spawn_line (Tiered.mkSpawn tr 10 cm) v)).
Proof.
  apply (scaled_value_exact 10 40 (PInt 40)); [lia | lia | reflexivity | reflexivity].
Defined.

End C1.

(** ** The file writer *)

Module IOFacts.
Import Py IO.

Lemma append_nil_r (s : string) : s ++ EmptyString = s.
Proof. induction s; cbn; congruence. Qed.

Lemma append_assoc (a b c : string) : (a ++ b) ++ c = a ++ (b ++ c).
Proof. induction a; cbn; congruence. Qed.

Lemma bind_ret_l {A B} (a : A) (f : A -> io B) : bind (ret a) f = f a.
Proof. unfold bind, ret. now destruct (f a). Qed.

Lemma bind_assoc {A B C} (m : io A) (f : A -> io B) (g : B -> io C) :
  bind (bind m f) g = bind m (fun a => bind (f a) g).
Proof.
  destruct m as [t [a|e]]; cbn; [|reflexivity].
  destruct (f a) as [t' [b|e]]; cbn; [|reflexivity].
  destruct (g b) as [t'' r]. now rewrite append_assoc.
Qed.

Lemma bind_write {B} (s : string) (f : unit -> io B) :
  bind (write s) f = (s ++ fst (f tt), snd (f tt)).
Proof. unfold bind, write. now destruct (f tt). Qed.


Lemma bind_raise {A B} (m : io A) (f : A -> io B) e :
  snd m = Raise e -> bind m f = (fst m, Raise e).
Proof. destruct m as [t r]; cbn. now intros ->. Qed.

Lemma bind_ext {A B} (m : io A) (f g : A -> io B) :
  (forall a, f a = g a) -> bind m f = bind m g.
Proof. intros H. destruct m as [t [a|e]]; cbn; [now rewrite H | reflexivity]. Qed.

Lemma for_loop_app {A S} (body : S -> A -> io S) (l1 l2 : list A) (s : S) :
  for_loop body s (l1 ++ l2)
  = bind (for_loop body s l1) (fun s' => for_loop body s' l2).
Proof.
  revert s. induction l1 as [|a l1 IH]; intros s; cbn [for_loop app].
  - now rewrite bind_ret_l.
  - rewrite bind_assoc. apply bind_ext. intros s'. apply IH.
Qed.

(** A loop whose body only writes a line per element writes the lines. *)
Lemma for_each_write {A} (body : A -> io unit) (line : A -> string) (l : list A) :
  (forall a, In a l -> body a = write (line a)) ->
  for_each body l = write (Text.join (map line l)).
Proof.
  unfold for_each. induction l as [|a l IH]; intros H; cbn [for_loop map Text.join fold_right].
  - reflexivity.
  - rewrite (H a (or_introl eq_refl)), bind_write.
    fold (Text.join (map line l)).
    rewrite IH by (intros; apply H; now right). reflexivity.
Qed.

End IOFacts.

(** ** The loop of the tiered emitter *)

Module TieredLoop.
Import Py IO IOFacts Tiered TieredGen ScaleFacts.

Section Loop.
Variable default_pct : Z.
Variable ritpow_modifiers : dict string Z.
Variable level_modifiers : dict string Z.

Abbreviation pct := (effective_percentage default_pct ritpow_modifiers level_modifiers).
Abbreviation turn := (write_ritual default_pct ritpow_modifiers level_modifiers).
Abbreviation is_applied := (applied default_pct ritpow_modifiers level_modifiers).
Abbreviation is_skipped := (skipped default_pct ritpow_modifiers level_modifiers).

Lemma same_ritpow_eq a b : same_ritpow a b = true <-> a = b.
Proof.
  destruct a, b; cbn; split; try congruence; try discriminate.
  - intros H. apply Z.eqb_eq in H. now subst.
  - intros [= ->]. apply Z.eqb_refl.
Qed.

Lemma write_section_ok cur r p :
  snd (write_section cur r p) = Ok (ritpow r).
Proof.
  unfold write_section. destruct (same_ritpow (ritpow r) cur) eqn:E.
  - apply same_ritpow_eq in E. now subst.
  - reflexivity.
Qed.


Lemma turn_skipped st r :
  is_skipped r = true ->
  turn st r = ret (mkCounters (current_ritpow st) (modified_count st) (skipped_count st + 1)).
Proof. unfold skipped, write_ritual. now intros ->. Qed.

Lemma turn_applied st r :
  is_applied r = true ->
  turn st r
  = (fst (write_section (current_ritpow st) r (pct r)) ++ fst (write_block (pct r) r),
     match snd (write_block (pct r) r) with
     | Ok _ => Ok (mkCounters (ritpow r) (modified_count st + 1) (skipped_count st))
     | Raise e => Raise e
     end).
Proof.
  unfold applied, skipped, write_ritual. intros H.
  apply negb_true_iff in H. rewrite H.
  pose proof (write_section_ok (current_ritpow st) r (pct r)) as S.
  destruct (write_section (current_ritpow st) r (pct r)) as [t rs]. cbn in S. subst rs.
  cbn [bind fst].
  destruct (write_block (pct r) r) as [t' [[]|e]]; cbn; [|reflexivity].
  now rewrite append_nil_r.
Qed.

(** The counters and the tracked category after a run of the loop that
    returns. *)
Lemma loop_counters rs : forall st st',
  snd (for_loop turn st rs) = Ok st' ->
  skipped_count st' = skipped_count st + Z.of_nat (List.length (filter is_skipped rs))
  /\ modified_count st' = modified_count st + Z.of_nat (List.length (filter is_applied rs))
  /\ current_ritpow st'
     = fold_left (fun cur r => if is_applied r then ritpow r else cur) rs (current_ritpow st).
Proof.
  induction rs as [|r rs IH]; intros st st' H; cbn [for_loop] in H.
  - injection H as <-. cbn. repeat split; lia.
  - cbn [filter fold_left].
    destruct (is_skipped r) eqn:E.
    + assert (A : is_applied r = false) by (unfold applied; now rewrite E).
      rewrite A.
      rewrite turn_skipped, bind_ret_l in H by assumption.
      apply IH in H. cbn [skipped_count modified_count current_ritpow] in H.
      destruct H as (H1 & H2 & H3).
      repeat split; [cbn [List.length]; lia | lia | exact H3].
    + assert (A : is_applied r = true) by (unfold applied; now rewrite E).
      rewrite A.
      rewrite (turn_applied st r A) in H.
      destruct (snd (write_block (pct r) r)) as [[]|e]; cbn [bind] in H.
      * destruct (for_loop turn _ rs) as [t' r'] eqn:L. cbn in H. subst r'.
        assert (L' : snd (for_loop turn
                            (mkCounters (ritpow r) (modified_count st + 1) (skipped_count st)) rs)
                     = Ok st') by now rewrite L.
        apply IH in L'. cbn [skipped_count modified_count current_ritpow] in L'.
        destruct L' as (H1 & H2 & H3).
        repeat split; [lia | cbn [List.length]; lia | exact H3].
      * discriminate.
Qed.

(** What is written does not depend on the counters, and the skipped
    records can be taken out of the list. *)
Lemma loop_text rs : forall st1 st2,
  current_ritpow st1 = current_ritpow st2 ->
  fst (for_loop turn st1 rs) = fst (for_loop turn st2 (filter is_applied rs)).
Proof.
  induction rs as [|r rs IH]; intros st1 st2 H; cbn [for_loop filter]; [reflexivity|].
  destruct (is_applied r) eqn:A.
  - cbn [for_loop]. rewrite !(turn_applied _ r A), H.
    destruct (snd (write_block (pct r) r)) as [[]|e]; cbn [bind]; [|reflexivity].
    specialize (IH (mkCounters (ritpow r) (modified_count st1 + 1) (skipped_count st1))
                   (mkCounters (ritpow r) (modified_count st2 + 1) (skipped_count st2))
                   eq_refl).
    destruct (for_loop turn _ rs) as [ta ra].
    destruct (for_loop turn _ (filter is_applied rs)) as [tb rb].
    cbn in IH |- *. now rewrite IH.
  - assert (S : is_skipped r = true).
    { unfold applied in A. now apply negb_false_iff in A. }
    rewrite turn_skipped, bind_ret_l by assumption.
    apply IH. exact H.
Qed.

Lemma tiered_write_cost_exact p c :
  0 <= amount c * p < 2 ^ 53 ->
  TieredGen.write_cost p c
  = write (cost_line (ctype c) (Z.max 1 (exact_ceil (amount c * p) 100)) (amount c)).
Proof.
  intros H. unfold TieredGen.write_cost. now rewrite scale_int_exact.
Qed.

Lemma write_block_exact p r :
  (forall c, In c (costs r) -> 0 <= amount c * p < 2 ^ 53) ->
  write_block p r = write (TieredGen.exact_block p r).
Proof.
  intros H. unfold write_block, TieredGen.exact_block.
  rewrite (for_each_write _
             (fun c => cost_line (ctype c) (Z.max 1 (exact_ceil (amount c * p) 100)) (amount c)))
    by (intros; now apply tiered_write_cost_exact, H).
  rewrite !bind_write. cbn [fst snd write]. reflexivity.
Qed.

(** With every product in range the loop returns. *)
Lemma loop_returns rs : forall st,
  (forall r c, In r rs -> is_applied r = true -> In c (costs r) ->
               0 <= amount c * pct r < 2 ^ 53) ->
  exists st', snd (for_loop turn st rs) = Ok st'.
Proof.
  induction rs as [|r rs IH]; intros st H; cbn [for_loop].
  - now exists st.
  - destruct (is_applied r) eqn:A.
    + rewrite (turn_applied st r A).
      rewrite write_block_exact by (intros; apply (H r c); auto; now left).
      cbn [snd write bind].
      destruct (IH (mkCounters (ritpow r) (modified_count st + 1) (skipped_count st)))
        as [st' E]; [intros; apply (H r0 c); auto; now right|].
      exists st'. destruct (for_loop turn _ rs). cbn in *. exact E.
    + assert (S : is_skipped r = true).
      { unfold applied in A. now apply negb_false_iff in A. }
      rewrite turn_skipped, bind_ret_l by assumption.
      apply IH. intros; apply (H r0 c); auto; now right.
Qed.
End Loop.

End TieredLoop.

(** ** Claim C3: the skip rule of the tiered generator *)

Module C3.
Import Py IO IOFacts Tiered TieredGen TieredLoop.

(** C3. In the tiered generator a ritual is skipped exactly when its
    effective percentage is 100. A skipped ritual writes nothing and adds
    one to the skipped count only; any other ritual writes its selection
    line and, when its turn of the loop returns, adds one to the modified
    count only. Over a whole run that returns, the skipped count is the
    number of rituals at 100 and the modified count the number of the
    others; the text written is the text written for the list without the
    skipped rituals; [generate_mod_file] returns these two counts; and the
    run does return when every product of an amount and a percentage is
    in the range where the arithmetic is exact. *)
Theorem skip_rule (default_pct : Z) (ritpow_modifiers level_modifiers : dict string Z) :
  let pct := effective_percentage default_pct ritpow_modifiers level_modifiers in
  let turn := write_ritual default_pct ritpow_modifiers level_modifiers in
  let run := write_rituals default_pct ritpow_modifiers level_modifiers in
  let is_skipped := skipped default_pct ritpow_modifiers level_modifiers in
  let is_applied := applied default_pct ritpow_modifiers level_modifiers in
  (forall st r, pct r = 100 ->
     turn st r = (EmptyString,
                  Ok (mkCounters (current_ritpow st) (modified_count st) (skipped_count st + 1))))
  /\ (forall st r, pct r <> 100 ->
        (exists rest,
           fst (turn st r)
           = fst (write_section (current_ritpow st) r (pct r))
             ++ select_line "selectritual" (name r) ++ rest)
        /\ (forall st', snd (turn st r) = Ok st' ->
              modified_count st' = modified_count st + 1
              /\ skipped_count st' = skipped_count st))
  /\ (forall rs st, snd (run rs) = Ok st ->
        skipped_count st = Z.of_nat (List.length (filter is_skipped rs))
        /\ modified_count st = Z.of_nat (List.length (filter is_applied rs)))
  /\ (forall rs, fst (run rs) = fst (run (filter is_applied rs)))
  /\ (forall rs,
        (forall r c, In r rs -> pct r <> 100 -> In c (costs r) ->
                     0 <= amount c * pct r < 2 ^ 53) ->
        exists st, snd (run rs) = Ok st)
  /\ (forall write_header cfg names dir fs tiers class_tiers rs m s,
        process_config cfg names = (default_pct, ritpow_modifiers, tiers, class_tiers) ->
        level_modifiers_of cfg = level_modifiers ->
        snd (generate write_header rs cfg names dir fs) = Ok (m, s) ->
        m = Z.of_nat (List.length (filter is_applied rs))
        /\ s = Z.of_nat (List.length (filter is_skipped rs))).
Proof.
  intros pct turn run is_skipped is_applied.
  assert (SK : forall r, pct r = 100 -> is_skipped r = true).
  { intros r H. unfold is_skipped, skipped. fold pct. rewrite H. reflexivity. }
  assert (AP : forall r, pct r <> 100 -> is_applied r = true).
  { intros r H. unfold is_applied, applied, skipped. fold pct.
    apply negb_true_iff, Z.eqb_neq, H. }
  split; [|split; [|split; [|split; [|split]]]].
  - intros st r H. unfold turn. rewrite turn_skipped by auto. reflexivity.
  - intros st r H. unfold turn. rewrite (turn_applied _ _ _ st r (AP r H)). fold pct.
    split.
    + cbn [fst]. unfold write_block. rewrite bind_write. cbn [fst].
      eexists. reflexivity.
    + intros st'. cbn [snd].
      destruct (snd (write_block (pct r) r)) as [[]|e]; [|discriminate].
      intros [= <-]. cbn. split; reflexivity.
  - intros rs st H. apply loop_counters in H. cbn in H. tauto.
  - intros rs. apply loop_text. reflexivity.
  - intros rs H. apply loop_returns. intros r c Hr Ha Hc. apply H; auto.
    unfold applied, skipped in Ha. fold pct in Ha.
    now apply negb_true_iff, Z.eqb_neq in Ha.
  - intros wh cfg names dir fs tiers ctiers rs m s Hp Hl. unfold generate.
    rewrite Hp, Hl.
    destruct (wh cfg names dir fs) as [t [[]|e]]; cbn [bind]; [|discriminate].
    destruct (write_rituals default_pct ritpow_modifiers level_modifiers rs)
      as [t' [st|e]] eqn:L; cbn [bind ret snd]; [|discriminate].
    intros [= <- <-].
    assert (L' : snd (write_rituals default_pct ritpow_modifiers level_modifiers rs) = Ok st)
      by now rewrite L.
    apply loop_counters in L'. cbn in L'. tauto.
Qed.

Lemma skip_rule_witness :
  exists st,
    snd (write_rituals 100 [("3", 50)] []
           [mkRitual "A" [mkCost 0 10] (Some 3) (Some "Lore") None;
            mkRitual "B" [mkCost 1 7] (Some 4) (Some "Fire") None]) = Ok st.
Proof.
  apply (proj1 (proj2 (proj2 (proj2 (proj2 (skip_rule 100 [("3", 50)] [])))))).
  intros r c [<-|[<-|[]]] _ [<-|[]]; vm_compute; split; congruence.
Defined.

End C3.

(** ** Claim C7: the section breaks of the tiered emitter *)

Module C7.
Import Py IO IOFacts Tiered TieredGen TieredLoop.



End C7.

(** ** The loop of the flat emitter *)

Module FlatLoop.
Import Py IO IOFacts Flat FlatGen ScaleFacts.






End FlatLoop.

(** ** Claim C10: the flat generator has no skip rule *)

Module C10.
Import Py IO IOFacts Flat FlatGen FlatLoop.




End C10.

(** ** Claim C9: the flat generator is deterministic *)

Module C9.
Import Py IO Flat FlatGen.

(** C9. Two runs of the flat [generate_mod_file] with the same ritual
    list and the same percentage leave the same bytes in the output file
    and return the same result, whatever the files held before: the file
    is opened for writing, so what it held is discarded, and its new
    content is what the run writes. A second run after the first changes
    no file. *)
Theorem flat_generator_deterministic
    (repr : float -> string) (rituals : list ritual) (percentage : num)
    (output_path : string) (fs1 fs2 : files) :
  let run := generate_mod_file repr rituals percentage output_path in
  fst (run fs1) output_path = Some (fst (generate repr rituals percentage))
  /\ fst (run fs1) output_path = fst (run fs2) output_path
  /\ snd (run fs1) = snd (run fs2)
  /\ (forall path, fst (run (fst (run fs1))) path = fst (run fs1) path).
Proof.
  intros run. unfold run, generate_mod_file, with_open_w, set_file. cbn [fst snd].
  rewrite String.eqb_refl. repeat split.
  intros path. destruct (String.eqb path output_path); reflexivity.
Qed.

End C9.

(** ** Dictionaries *)

Section DictFacts.
Context {K V : Type} (eqb : K -> K -> bool).
Hypothesis eqb_eq : forall a b, eqb a b = true <-> a = b.

Lemma eqb_same a : eqb a a = true.
Proof. now apply eqb_eq. Qed.

Lemma eqb_diff a b : a <> b -> eqb a b = false.
Proof.
  intros H. destruct (eqb a b) eqn:E; [|reflexivity].
  apply eqb_eq in E. contradiction.
Qed.

Lemma dict_get_set_same k (v : V) d : dict_get eqb k (dict_set eqb k v d) = Some v.
Proof.
  induction d as [|[k' v'] d IH]; cbn.
  - now rewrite eqb_same.
  - destruct (eqb k k') eqn:E; cbn; rewrite E; [reflexivity | exact IH].
Qed.

Lemma dict_get_set_other k k' (v : V) d :
  k <> k' -> dict_get eqb k (dict_set eqb k' v d) = dict_get eqb k d.
Proof.
  intros H. induction d as [|[k2 v2] d IH]; cbn.
  - now rewrite eqb_diff.
  - destruct (eqb k' k2) eqn:E; cbn.
    + apply eqb_eq in E. subst k2. now rewrite (eqb_diff k k' H).
    + now rewrite IH.
Qed.

Lemma dict_get_in k (v : V) d : dict_get eqb k d = Some v -> In (k, v) d.
Proof.
  induction d as [|[k' v'] d IH]; cbn; [discriminate|].
  destruct (eqb k k') eqn:E.
  - apply eqb_eq in E. subst k'. intros [= ->]. now left.
  - intros H. right. now apply IH.
Qed.

Lemma in_dict_get k (v : V) d : In (k, v) d -> exists v', dict_get eqb k d = Some v'.
Proof.
  induction d as [|[k' v'] d IH]; cbn; [contradiction|].
  intros [[= -> ->]|H].
  - rewrite eqb_same. eauto.
  - destruct (eqb k k'); eauto.
Qed.

(** Every entry of a dictionary after an assignment is the assigned one
    or was there before. *)
Lemma in_dict_set k (v : V) d k0 v0 :
  In (k0, v0) (dict_set eqb k v d) -> (k0 = k /\ v0 = v) \/ In (k0, v0) d.
Proof.
  induction d as [|[k' v'] d IH]; cbn.
  - intros [[= <- <-]|[]]. now left.
  - destruct (eqb k k') eqn:E; cbn.
    + apply eqb_eq in E. subst k'. intros [[= <- <-]|H]; [now left | right; now right].
    + intros [H|H]; [right; now left|].
      destruct (IH H) as [?|?]; [now left | right; now right].
Qed.
End DictFacts.

(** ** The parsers *)

Module ParserFacts.
Import Text.

Lemma flat_flush_inv rs cur :
  Forall (fun r => Flat.costs r <> []) rs ->
  Forall (fun r => Flat.costs r <> []) (Flat.flush rs cur).
Proof.
  intros H. destruct cur as [r|]; cbn; [|exact H].
  destruct (Flat.costs r) eqn:E; [exact H|].
  apply Forall_app. split; [exact H|]. constructor; [|constructor].
  rewrite E. discriminate.
Qed.

Lemma flat_parse_line_inv st line :
  Forall (fun r => Flat.costs r <> []) (Flat.rituals st) ->
  Forall (fun r => Flat.costs r <> []) (Flat.rituals (Flat.parse_line st line)).
Proof.
  intros H. unfold Flat.parse_line.
  destruct (re_record_start "newritual" (strip (before_hash line))); cbn [Flat.rituals Tiered.rituals Tiered.monsters]; [now apply flat_flush_inv|].
  destruct (Flat.current_ritual st); [|exact H].
  destruct (re_cost (strip (before_hash line))) as [[t a]|]; cbn [Flat.rituals]; exact H.
Qed.

Lemma flat_parse_lines_inv lines : forall st,
  Forall (fun r => Flat.costs r <> []) (Flat.rituals st) ->
  Forall (fun r => Flat.costs r <> []) (Flat.rituals (fold_left Flat.parse_line lines st)).
Proof.
  induction lines as [|l lines IH]; intros st H; cbn; [exact H|].
  apply IH, flat_parse_line_inv, H.
Qed.

Lemma tiered_flush_inv rs cur :
  Forall (fun r => Tiered.costs r <> []) rs ->
  Forall (fun r => Tiered.costs r <> []) (Tiered.flush rs cur).
Proof.
  intros H. destruct cur as [r|]; cbn; [|exact H].
  destruct (Tiered.costs r) eqn:E; [exact H|].
  apply Forall_app. split; [exact H|]. constructor; [|constructor].
  rewrite E. discriminate.
Qed.

Lemma tiered_parse_line_inv st line :
  Forall (fun r => Tiered.costs r <> []) (Tiered.rituals st) ->
  Forall (fun r => Tiered.costs r <> []) (Tiered.rituals (Tiered.parse_line st line)).
Proof.
  intros H. unfold Tiered.parse_line.
  destruct (re_record_start "newritual" line); cbn [Flat.rituals Tiered.rituals Tiered.monsters]; [now apply tiered_flush_inv|].
  destruct (Tiered.current_ritual st); [|exact H].
  destruct (re_ritpow line) as [[n g]|]; cbn [Tiered.rituals]; [exact H|].
  destruct (re_keyword_int "level" (before_hash line)); cbn [Tiered.rituals]; [exact H|].
  destruct (re_cost (before_hash line)) as [[t a]|]; cbn [Tiered.rituals]; exact H.
Qed.

Lemma tiered_parse_lines_inv lines : forall st,
  Forall (fun r => Tiered.costs r <> []) (Tiered.rituals st) ->
  Forall (fun r => Tiered.costs r <> [])
         (Tiered.rituals (fold_left Tiered.parse_line lines st)).
Proof.
  induction lines as [|l lines IH]; intros st H; cbn; [exact H|].
  apply IH, tiered_parse_line_inv, H.
Qed.

Lemma monster_flush_inv ms cur :
  Forall (fun m => Tiered.spawns m <> []) ms ->
  Forall (fun m => Tiered.spawns m <> []) (Tiered.mflush ms cur).
Proof.
  intros H. destruct cur as [m|]; cbn; [|exact H].
  destruct (Tiered.spawns m) eqn:E; [exact H|].
  apply Forall_app. split; [exact H|]. constructor; [|constructor].
  rewrite E. discriminate.
Qed.

Lemma monster_parse_line_inv st line :
  Forall (fun m => Tiered.spawns m <> []) (Tiered.monsters st) ->
  Forall (fun m => Tiered.spawns m <> [])
         (Tiered.monsters (Tiered.parse_monster_line st line)).
Proof.
  intros H. unfold Tiered.parse_monster_line.
  destruct (re_record_start "newmonster" line); cbn [Flat.rituals Tiered.rituals Tiered.monsters]; [now apply monster_flush_inv|].
  destruct (Tiered.current_monster st); [|exact H].
  destruct (Tiered.match_trait Tiered.SPAWN_TRAITS (before_hash line)) as [[t v]|]; cbn [Tiered.monsters]; exact H.
Qed.

Lemma monster_parse_lines_inv lines : forall st,
  Forall (fun m => Tiered.spawns m <> []) (Tiered.monsters st) ->
  Forall (fun m => Tiered.spawns m <> [])
         (Tiered.monsters (fold_left Tiered.parse_monster_line lines st)).
Proof.
  induction lines as [|l lines IH]; intros st H; cbn; [exact H|].
  apply IH, monster_parse_line_inv, H.
Qed.

(** A line that is not a [ritpow] line for the id [n] leaves the name
    stored for [n] as it is. *)
Lemma names_unchanged st line n :
  (forall g, re_ritpow line <> Some (n, g)) ->
  dict_get Z.eqb n (Tiered.ritpow_names (Tiered.parse_line st line))
  = dict_get Z.eqb n (Tiered.ritpow_names st).
Proof.
  intros H. unfold Tiered.parse_line.
  destruct (re_record_start "newritual" line); [reflexivity|].
  destruct (Tiered.current_ritual st); [|reflexivity].
  destruct (re_ritpow line) as [[m g]|].
  - cbn [Tiered.ritpow_names]. apply (dict_get_set_other Z.eqb Z.eqb_eq).
    intros ->. now apply (H g).
  - destruct (re_keyword_int "level" (before_hash line)); [reflexivity|].
    destruct (re_cost (before_hash line)) as [[t a]|]; reflexivity.
Qed.

Lemma names_unchanged_lines lines n : forall st,
  (forall l g, In l lines -> re_ritpow l <> Some (n, g)) ->
  dict_get Z.eqb n (Tiered.ritpow_names (fold_left Tiered.parse_line lines st))
  = dict_get Z.eqb n (Tiered.ritpow_names st).
Proof.
  induction lines as [|l lines IH]; intros st H; cbn; [reflexivity|].
  rewrite IH by (intros; apply H; now right).
  apply names_unchanged. intros g. apply H. now left.
Qed.

End ParserFacts.

(** ** Claim C6: no record without attributes *)

Module C6.
Import Text ParserFacts.

(** C6. Every record returned by a parser has at least one attribute: the
    rituals of the flat parser and of the tiered parser have a cost, the
    monsters have a spawn trait. A record that gathered no attribute line
    is dropped, when the next record starts (the ritual A below) and at
    the end of the input (the ritual C below). *)
Theorem parsed_records_have_attributes (text : string) :
  Forall (fun r => Flat.costs r <> []) (Flat.parse_ritual_data text)
  /\ Forall (fun r => Tiered.costs r <> []) (fst (Tiered.parse_ritual_data text))
  /\ Forall (fun m => Tiered.spawns m <> []) (Tiered.parse_monster_data text)
  /\ Flat.parse_ritual_data
       ("newritual " ++ quote "A" ++ nl ++ "newritual " ++ quote "B" ++ nl
        ++ "cost 0 5" ++ nl ++ "newritual " ++ quote "C" ++ nl)
     = [Flat.mkRitual "B" [Flat.mkCost 0 5]]
  /\ fst (Tiered.parse_ritual_data
            ("newritual " ++ quote "A" ++ nl ++ "newritual " ++ quote "B" ++ nl
             ++ "cost 0 5" ++ nl ++ "newritual " ++ quote "C" ++ nl))
     = [Tiered.mkRitual "B" [Tiered.mkCost 0 5] None None None]
  /\ Tiered.parse_monster_data
       ("newmonster " ++ quote "A" ++ nl ++ "newmonster " ++ quote "B" ++ nl
        ++ "spawnmon 5 # slow" ++ nl ++ "newmonster " ++ quote "C" ++ nl)
     = [Tiered.mkMonster "B" [Tiered.mkSpawn "spawnmon" 5 "slow"]].
Proof.
  split; [|split; [|split; [|split; [|split]]]]; try (vm_compute; reflexivity).
  - unfold Flat.parse_ritual_data, Flat.parse_lines.
    apply flat_flush_inv, flat_parse_lines_inv. constructor.
  - unfold Tiered.parse_ritual_data, Tiered.parse_lines. cbn [fst].
    apply tiered_flush_inv, tiered_parse_lines_inv. constructor.
  - unfold Tiered.parse_monster_data, Tiered.parse_monster_lines.
    apply monster_flush_inv, monster_parse_lines_inv. constructor.
Qed.

End C6.

(** ** Claim C4: the category name table *)

Module C4.
Import Text ParserFacts.

(** C4, counterexample. Two rituals carry [ritpow 3] with different
    names: the table keeps the name of the second line, not of the first. *)
Lemma first_name_overwritten :
  let text :=
    "newritual " ++ quote "A" ++ nl ++ "ritpow 3 # Foo" ++ nl ++ "cost 0 1" ++ nl
    ++ "newritual " ++ quote "B" ++ nl ++ "ritpow 3 # Bar" ++ nl ++ "cost 0 1" ++ nl in
  snd (Tiered.parse_ritual_data text) = [(3, "Bar")]
  /\ dict_get Z.eqb 3 (snd (Tiered.parse_ritual_data text)) <> Some "Foo"
  /\ map Tiered.ritpow_name (fst (Tiered.parse_ritual_data text)) = [Some "Foo"; Some "Bar"].
Proof. vm_compute. repeat split; discriminate. Qed.

(** C4, as amended. The table maps a category id to the name of the last
    [ritpow] line read for that id: when a [ritpow] line for the id [n] is
    read inside a record, and no later line is a [ritpow] line for [n],
    the table holds the stripped name of that line for [n]. Each such line
    overwrites the name stored before. *)
Theorem last_name_wins (pre post : list string) (line : string) (n : Z) (g : string) :
  Tiered.current_ritual (Tiered.parse_lines pre) <> None ->
  re_record_start "newritual" line = None ->
  re_ritpow line = Some (n, g) ->
  (forall l g', In l post -> re_ritpow l <> Some (n, g')) ->
  dict_get Z.eqb n (Tiered.ritpow_names (Tiered.parse_lines (pre ++ line :: post)))
  = Some (strip g).
Proof.
  intros Hc Hn Hr Hp. unfold Tiered.parse_lines in *.
  rewrite fold_left_app. cbn [fold_left].
  rewrite names_unchanged_lines by exact Hp.
  unfold Tiered.parse_line at 1. rewrite Hn.
  destruct (Tiered.current_ritual _); [|contradiction]. rewrite Hr.
  cbn [Tiered.ritpow_names]. apply (dict_get_set_same Z.eqb Z.eqb_eq).
Qed.

Lemma last_name_wins_witness :
  dict_get Z.eqb 3
    (Tiered.ritpow_names
       (Tiered.parse_lines
          (["newritual " ++ quote "A" ++ nl; "ritpow 3 # Foo" ++ nl]
           ++ ("ritpow 3 # Bar" ++ nl) :: ["cost 0 1" ++ nl])))
  = Some (strip "Bar").
Proof.
  apply (last_name_wins ["newritual " ++ quote "A" ++ nl; "ritpow 3 # Foo" ++ nl]
                        ["cost 0 1" ++ nl] ("ritpow 3 # Bar" ++ nl) 3 "Bar").
  - vm_compute. discriminate.
  - vm_compute. reflexivity.
  - vm_compute. reflexivity.
  - intros l g' [<-|[]]. vm_compute. discriminate.
Defined.

End C4.

(** ** Strings, decimal numbers and patterns *)

Module TextFacts.
Import Text.

Lemma to_int_not_nil n : Z.to_int n <> Pos Nil /\ Z.to_int n <> Neg Nil.
Proof.
  destruct n as [|p|p]; cbn; split; try discriminate;
    intros [= H]; now apply (DecimalPos.Unsigned.to_uint_nonnil p).
Qed.

(** [str] is injective on the integers. *)
Lemma str_of_int_inj a b : str_of_int a = str_of_int b -> a = b.
Proof.
  unfold str_of_int. intros H.
  apply DecimalZ.to_int_inj.
  destruct (to_int_not_nil a) as [A1 A2], (to_int_not_nil b) as [B1 B2].
  pose proof (NilZero.isi _ A1 A2) as Ia. pose proof (NilZero.isi _ B1 B2) as Ib.
  rewrite H in Ia. congruence.
Qed.

Lemma str_of_int_eqb a b : String.eqb (str_of_int a) (str_of_int b) = Z.eqb a b.
Proof.
  destruct (Z.eqb_spec a b) as [->|N].
  - apply String.eqb_refl.
  - apply String.eqb_neq. intros H. now apply N, str_of_int_inj.
Qed.

Lemma uint_digits d : all_chars is_digit (NilEmpty.string_of_uint d) = true.
Proof. induction d; cbn; auto. Qed.

(** The decimal form of a non-negative integer is a non-empty run of
    digits that [int] reads back. *)
Lemma str_of_nonneg n :
  0 <= n ->
  all_chars is_digit (str_of_int n) = true
  /\ str_of_int n <> EmptyString
  /\ int_of_digits (str_of_int n) = n.
Proof.
  intros Hn. unfold str_of_int, int_of_digits.
  pose proof (DecimalZ.of_to n) as E.
  destruct n as [|p|p]; [| |lia].
  - cbn. repeat split. discriminate.
  - cbn [Z.to_int NilZero.string_of_int] in *.
    pose proof (DecimalPos.Unsigned.to_uint_nonnil p) as NN.
    unfold NilZero.string_of_uint.
    destruct (Pos.to_uint p) as [|u|u|u|u|u|u|u|u|u|u] eqn:U; try contradiction;
      rewrite <- U in *; (split; [apply uint_digits|]);
      (split; [rewrite U; discriminate|]);
      rewrite NilEmpty.usu; exact E.
Qed.

Lemma all_chars_app f a b :
  all_chars f (a ++ b) = all_chars f a && all_chars f b.
Proof. induction a; cbn; [reflexivity|]. now rewrite IHa, andb_assoc. Qed.

Lemma all_chars_weaken (f g : ascii -> bool) s :
  (forall c, f c = true -> g c = true) -> all_chars f s = true -> all_chars g s = true.
Proof.
  intros H. induction s; cbn; [reflexivity|].
  intros E. apply andb_true_iff in E as [E1 E2].
  now rewrite (H _ E1), IHs.
Qed.

Lemma digit_not_space c : is_digit c = true -> is_space c = false.
Proof.
  unfold is_digit, is_space. intros H.
  apply andb_true_iff in H as [H1 H2].
  apply N.leb_le in H1, H2.
  repeat (apply orb_false_iff; split);
    try (apply andb_false_iff);
    try (apply N.eqb_neq; lia).
  - right. apply N.leb_gt. lia.
  - right. apply N.leb_gt. lia.
Qed.

Lemma digit_not_hash c : is_digit c = true -> negb (Ascii.eqb c "#") = true.
Proof.
  intros H. apply negb_true_iff, Ascii.eqb_neq. intros ->. discriminate.
Qed.

Lemma space_not_digit c : is_space c = true -> is_digit c = false.
Proof.
  intros H. destruct (is_digit c) eqn:E; [|reflexivity].
  apply digit_not_space in E. congruence.
Qed.

(** *** Comments and white space *)

Lemma before_hash_app a b :
  all_chars (fun c => negb (Ascii.eqb c "#")) a = true ->
  before_hash (a ++ String "#" b) = a.
Proof.
  induction a as [|c a IH]; cbn; [reflexivity|].
  intros H. apply andb_true_iff in H as [H1 H2].
  apply negb_true_iff in H1. rewrite H1. now rewrite IH.
Qed.

Lemma rstrip_spaces ws : all_chars is_space ws = true -> rstrip ws = EmptyString.
Proof.
  induction ws as [|c ws IH]; cbn; [reflexivity|].
  intros H. apply andb_true_iff in H as [H1 H2]. now rewrite IH, H1.
Qed.

Lemma rstrip_app_spaces a ws :
  all_chars is_space ws = true -> rstrip (a ++ ws) = rstrip a.
Proof.
  intros H. induction a as [|c a IH]; cbn.
  - now apply rstrip_spaces.
  - now rewrite IH.
Qed.

Lemma rstrip_ends_nonspace s : ends_nonspace s = true -> rstrip s = s.
Proof.
  induction s as [|c s IH]; cbn; [discriminate|].
  destruct s as [|c' s'].
  - cbn. intros H. apply negb_true_iff in H. now rewrite H.
  - intros H. rewrite (IH H). reflexivity.
Qed.

Lemma ends_nonspace_app a b :
  b <> EmptyString -> ends_nonspace (a ++ b) = ends_nonspace b.
Proof.
  intros Hb. induction a as [|c a IH]; cbn [append]; [reflexivity|].
  cbn [ends_nonspace]. destruct (a ++ b) eqn:E.
  - destruct a, b; try discriminate. contradiction.
  - exact IH.
Qed.

Lemma digits_end_nonspace s :
  all_chars is_digit s = true -> s <> EmptyString -> ends_nonspace s = true.
Proof.
  induction s as [|c s IH]; [contradiction|].
  cbn [all_chars]. intros H _. apply andb_true_iff in H as [H1 H2].
  destruct s as [|c' s'].
  - cbn. now rewrite (digit_not_space c H1).
  - cbn [ends_nonspace]. apply IH; [exact H2 | discriminate].
Qed.

(** *** Matching *)

Lemma lit_app {A} p (k : matcher A) s : lit p k (p ++ s) = k s.
Proof.
  induction p as [|c p IH]; cbn; [reflexivity|].
  now rewrite Ascii.eqb_refl.
Qed.

Lemma plus1_outside {A} f (k : string -> matcher A) s :
  starts_outside f s = true -> plus1 f k s = None.
Proof.
  destruct s as [|c r]; cbn; [reflexivity|].
  intros H. apply negb_true_iff in H. now rewrite H.
Qed.

(** A greedy run: when the class matches exactly [run] at the head of the
    subject and the continuation accepts what follows, the whole run is
    taken. *)
Lemma plus1_run {A} f run : forall (k : string -> matcher A) rest a,
  run <> EmptyString ->
  all_chars f run = true ->
  starts_outside f rest = true ->
  k run rest = Some a ->
  plus1 f k (run ++ rest) = Some a.
Proof.
  induction run as [|c run IH]; intros k rest a Hne Hall Hout Hk; [contradiction|].
  cbn [all_chars] in Hall. apply andb_true_iff in Hall as [Hc Hall].
  cbn [append plus1]. rewrite Hc.
  destruct run as [|c' run'].
  - cbn [append]. rewrite plus1_outside by exact Hout. exact Hk.
  - rewrite (IH (fun r => k (String c r)) rest a); auto. discriminate.
Qed.

End TextFacts.

(** ** Claim C8: reading the generated file back *)

Module CostLine.
Import Text TextFacts IOFacts.

Lemma cost_line_split t v a :
  exists tail, cost_line t v a = (cost_head t v ++ "  ") ++ String "#" tail.
Proof.
  eexists. unfold cost_line, cost_head. rewrite !append_assoc. reflexivity.
Qed.

Lemma lstrip_outside s : starts_outside is_space s = true -> lstrip s = s.
Proof.
  destruct s as [|c r]; cbn; [reflexivity|].
  intros H. apply negb_true_iff in H. now rewrite H.
Qed.

Lemma digits_start_outside_space s x :
  all_chars is_digit s = true -> s <> EmptyString ->
  starts_outside is_space (s ++ x) = true.
Proof.
  destruct s as [|c r]; [contradiction|]. cbn. intros H _.
  apply andb_true_iff in H as [H _]. now rewrite (digit_not_space c H).
Qed.

Lemma cost_head_no_hash t v :
  0 <= t -> 0 <= v ->
  all_chars (fun c => negb (Ascii.eqb c "#")) (cost_head t v ++ "  ") = true.
Proof.
  intros Ht Hv. unfold cost_head.
  destruct (str_of_nonneg t Ht) as (Dt & _ & _).
  destruct (str_of_nonneg v Hv) as (Dv & _ & _).
  rewrite !all_chars_app.
  rewrite (all_chars_weaken _ _ _ digit_not_hash Dt).
  rewrite (all_chars_weaken _ _ _ digit_not_hash Dv). reflexivity.
Qed.

(** The line of a cost, read as the flat parser reads a line. *)
Lemma cost_line_stripped t v a :
  0 <= t -> 0 <= v -> strip (before_hash (cost_line t v a)) = cost_head t v.
Proof.
  intros Ht Hv. destruct (cost_line_split t v a) as [tail ->].
  rewrite before_hash_app by now apply cost_head_no_hash.
  unfold strip. rewrite lstrip_outside by reflexivity.
  rewrite rstrip_app_spaces by reflexivity.
  apply rstrip_ends_nonspace. unfold cost_head.
  destruct (str_of_nonneg v Hv) as (Dv & Nv & _).
  assert (N1 : " " ++ str_of_int v <> EmptyString) by discriminate.
  assert (N2 : str_of_int t ++ " " ++ str_of_int v <> EmptyString).
  { destruct (str_of_int t); discriminate. }
  rewrite (ends_nonspace_app "cost " _ N2), (ends_nonspace_app _ _ N1).
  change (" " ++ str_of_int v) with (String " " (str_of_int v)).
  cbn [ends_nonspace]. destruct (str_of_int v) eqn:E; [contradiction|].
  apply digits_end_nonspace; [exact Dv | discriminate].
Qed.

(** The cost pattern reads the two numbers of the line back. *)
Lemma re_cost_head t v :
  0 <= t -> 0 <= v -> re_cost (cost_head t v) = Some (t, v).
Proof.
  intros Ht Hv.
  destruct (str_of_nonneg t Ht) as (Dt & Nt & It).
  destruct (str_of_nonneg v Hv) as (Dv & Nv & Iv).
  unfold re_cost, cost_head.
  change ("cost " ++ str_of_int t ++ " " ++ str_of_int v)
    with ("cost" ++ " " ++ str_of_int t ++ " " ++ str_of_int v).
  rewrite lit_app. unfold spaces1 at 1.
  apply plus1_run; [discriminate | reflexivity | now apply digits_start_outside_space |].
  unfold digits1 at 1.
  apply plus1_run; [exact Nt | exact Dt | reflexivity |].
  rewrite It. unfold spaces1.
  apply plus1_run; [discriminate | reflexivity | |].
  { rewrite <- (append_nil_r (str_of_int v)). now apply digits_start_outside_space. }
  unfold digits1. rewrite <- (append_nil_r (str_of_int v)).
  apply plus1_run; [exact Nv | exact Dv | reflexivity |].
  rewrite Iv. reflexivity.
Qed.

Lemma strip_keeps_head c x :
  is_space c = false -> c <> "#"%char ->
  exists y, strip (before_hash (String c x)) = String c y.
Proof.
  intros Hs Hh. cbn [before_hash].
  apply Ascii.eqb_neq in Hh. rewrite Hh.
  unfold strip. cbn [lstrip]. rewrite Hs. cbn [rstrip].
  destruct (rstrip (before_hash x)); [rewrite Hs|]; eauto.
Qed.

End CostLine.

Module C8.
Import Text TextFacts IOFacts CostLine Py.

(** C8, counterexample. The ritual list parsed from a source with one
    ritual is written at 50 percent; parsing the text written with the
    same parser returns no ritual at all, so no scaled value is recovered
    (the emitter wrote [cost 0 50] for the ritual A). *)
Lemma output_not_reparsed :
  let rituals :=
    Flat.parse_ritual_data ("newritual " ++ quote "A" ++ nl ++ "cost 0 100" ++ nl) in
  rituals = [Flat.mkRitual "A" [Flat.mkCost 0 100]]
  /\ FlatGen.write_rituals (PInt 50) rituals
     = IO.write (select_line "selectritual" "A" ++ cost_line 0 50 100 ++ nl)
  /\ (fun repr => Flat.parse_ritual_data (fst (FlatGen.generate repr rituals (PInt 50))))
     = (fun _ => []).
Proof. vm_compute. repeat split. Qed.

(** C8, as amended. The parser does not read a generated file back as
    records: a selection line [selectritual] starts no record and is
    ignored (the parser starts a record at [newritual] only). The values
    do come back line by line: a cost line the emitter writes for a
    resource type and a scaled value that are not negative, with its
    comment taken off as the parser does, matches the cost pattern of the
    parser and gives that type and that value; inside a record the parser
    adds exactly these pairs, in order. *)
Theorem cost_lines_round_trip :
  (forall t v a, 0 <= t -> 0 <= v ->
     re_cost (strip (before_hash (cost_line t v a))) = Some (t, v))
  /\ (forall st r t v a, Flat.current_ritual st = Some r -> 0 <= t -> 0 <= v ->
        Flat.parse_line st (cost_line t v a)
        = Flat.mkParser (Flat.rituals st)
            (Some (Flat.mkRitual (Flat.name r) (Flat.costs r ++ [Flat.mkCost t v]))))
  /\ (forall st n, Flat.parse_line st (select_line "selectritual" n) = st)
  /\ (forall (scaled : Flat.cost -> Z) cs st r,
        Flat.current_ritual st = Some r ->
        (forall c, In c cs -> 0 <= Flat.ctype c /\ 0 <= scaled c) ->
        fold_left Flat.parse_line
          (map (fun c => cost_line (Flat.ctype c) (scaled c) (Flat.amount c)) cs) st
        = Flat.mkParser (Flat.rituals st)
            (Some (Flat.mkRitual (Flat.name r)
                     (Flat.costs r ++ map (fun c => Flat.mkCost (Flat.ctype c) (scaled c)) cs)))).
Proof.
  assert (P1 : forall t v a, 0 <= t -> 0 <= v ->
             re_cost (strip (before_hash (cost_line t v a))) = Some (t, v)).
  { intros. rewrite cost_line_stripped by assumption. now apply re_cost_head. }
  assert (P2 : forall st r t v a, Flat.current_ritual st = Some r -> 0 <= t -> 0 <= v ->
             Flat.parse_line st (cost_line t v a)
             = Flat.mkParser (Flat.rituals st)
                 (Some (Flat.mkRitual (Flat.name r) (Flat.costs r ++ [Flat.mkCost t v])))).
  { intros st r t v a Hc Ht Hv. unfold Flat.parse_line.
    rewrite P1 by assumption. rewrite cost_line_stripped by assumption.
    change (re_record_start "newritual" (cost_head t v)) with (@None string).
    now rewrite Hc. }
  split; [exact P1|]. split; [exact P2|]. split.
  - intros st n. unfold Flat.parse_line, select_line.
    destruct (strip_keeps_head "s" ("electritual" ++ " " ++ String dquote n
                                     ++ String dquote nl))
      as [y E]; [reflexivity | discriminate |].
    change ("selectritual" ++ " " ++ String dquote n ++ String dquote nl)
      with (String "s" ("electritual" ++ " " ++ String dquote n ++ String dquote nl)).
    rewrite E.
    change (re_record_start "newritual" (String "s" y)) with (@None string).
    change (re_cost (String "s" y)) with (@None (Z * Z)).
    destruct st as [rs [r|]]; reflexivity.
  - intros scaled cs. induction cs as [|c cs IH]; intros st r Hc H; cbn [map fold_left].
    + rewrite app_nil_r. destruct st as [rs cur]. cbn in *. subst cur. now destruct r.
    + destruct (H c (or_introl eq_refl)) as [Ht Hv].
      rewrite (P2 st r _ _ _ Hc Ht Hv).
      rewrite (IH _ (Flat.mkRitual (Flat.name r)
                       (Flat.costs r ++ [Flat.mkCost (Flat.ctype c) (scaled c)])))
        by (try reflexivity; intros; apply H; now right).
      cbn [Flat.rituals Flat.name Flat.costs]. now rewrite <- app_assoc.
Qed.

Lemma cost_lines_round_trip_witness :
  re_cost (strip (before_hash (cost_line 0 50 100))) = Some (0, 50).
Proof.
  apply (proj1 cost_lines_round_trip 0 50 100); lia.
Defined.

End C8.

(** ** Claim C5: the percentage of a category *)

Module ConfigFacts.
Import Text TextFacts Tiered TieredGen.

Lemma name_to_id_entries names : forall d0 nm s,
  In (nm, s) (fold_left (fun d (it : Z * string) =>
                           dict_set String.eqb (snd it) (str_of_int (fst it)) d) names d0) ->
  In (nm, s) d0 \/ exists i, In (i, nm) names /\ s = str_of_int i.
Proof.
  induction names as [|[i n] names IH]; intros d0 nm s H; cbn [fold_left] in H.
  - now left.
  - apply IH in H. destruct H as [H|(j & Hj & ->)].
    + cbn [fst snd] in H.
      apply (in_dict_set String.eqb String.eqb_eq) in H.
      destruct H as [[-> ->]|H]; [|now left].
      right. exists i. split; [now left | reflexivity].
    + right. exists j. split; [now right | reflexivity].
Qed.

Lemma tier_modifiers_entries tiers ids class_tiers : forall d0 k p,
  In (k, p) (fold_left
               (fun d (it : string * string) =>
                  match dict_get String.eqb (fst it) ids with
                  | Some ritpow_id => dict_set String.eqb ritpow_id (get_or (snd it) tiers 100) d
                  | None => d
                  end) class_tiers d0) ->
  In (k, p) d0
  \/ exists class_name tier,
       In (class_name, tier) class_tiers /\ dict_get String.eqb class_name ids = Some k.
Proof.
  induction class_tiers as [|[cn tier] ct IH]; intros d0 k p H; cbn [fold_left] in H.
  - now left.
  - apply IH in H. destruct H as [H|(cn' & tier' & Hin & Hget)].
    + cbn [fst snd] in H. destruct (dict_get String.eqb cn ids) as [id|] eqn:E; [|now left].
      apply (in_dict_set String.eqb String.eqb_eq) in H.
      destruct H as [[-> ->]|H]; [|now left].
      right. exists cn, tier. split; [now left | exact E].
    + right. exists cn', tier'. split; [now right | exact Hget].
Qed.

(** A category id has a modifier in the tier form only when a name
    recorded for it in the table has a tier. *)
Lemma tier_modifier_has_name tiers class_tiers names n p :
  dict_get String.eqb (str_of_int n)
    (tier_modifiers tiers class_tiers (name_to_id names)) = Some p ->
  exists nm tier, In (n, nm) names /\ In (nm, tier) class_tiers.
Proof.
  intros H. apply (dict_get_in String.eqb String.eqb_eq) in H.
  apply tier_modifiers_entries in H. destruct H as [[]|(cn & tier & Hin & Hget)].
  apply (dict_get_in String.eqb String.eqb_eq) in Hget.
  apply name_to_id_entries in Hget. destruct Hget as [[]|(i & Hi & E)].
  apply str_of_int_inj in E. subst i. now exists cn, tier.
Qed.

Lemma string_keys_get levels n :
  dict_get String.eqb (str_of_int n) (string_keys levels) = dict_get Z.eqb n levels.
Proof.
  unfold string_keys.
  induction levels as [|[k v] levels IH]; cbn [map dict_get fst snd]; [reflexivity|].
  rewrite str_of_int_eqb. now rewrite IH.
Qed.

End ConfigFacts.

Module C5.
Import Text TextFacts Tiered TieredGen ConfigFacts.

(** C5, counterexample. The category id 3 is named Foo in the first
    ritual and Bar in the second; the tier form gives a tier to Bar only.
    The first ritual, whose display name Foo has no tier, still gets the
    50 percent of Bar, because modifiers are kept by category id. *)
Lemma unassigned_name_not_at_100 :
  let text :=
    "newritual " ++ quote "A" ++ nl ++ "ritpow 3 # Foo" ++ nl ++ "cost 0 10" ++ nl
    ++ "newritual " ++ quote "B" ++ nl ++ "ritpow 3 # Bar" ++ nl ++ "cost 0 10" ++ nl in
  let cfg := mkConfig None None (Some [("S", 50)]) (Some [("Bar", "S")]) None None None in
  let a := mkRitual "A" [mkCost 0 10] (Some 3) (Some "Foo") None in
  fst (parse_ritual_data text)
  = [a; mkRitual "B" [mkCost 0 10] (Some 3) (Some "Bar") None]
  /\ dict_get String.eqb "Foo" [("Bar", "S")] = None
  /\ category_percentage cfg (snd (parse_ritual_data text)) a = 50.
Proof. vm_compute. repeat split. Qed.

(** C5, as amended. With a flat-form configuration the default
    percentage is the value of the [default] key, 100 when the key is
    absent, and a ritual without a category id, or whose id is not a key
    of [ritpow_modifiers], gets that default. With a tier-form
    configuration a ritual gets 100 when it has no category id, or when no
    name recorded for its id in the category name table has an entry in
    [class_tiers] (the modifiers are kept by id, not by the display name
    of the ritual). *)
Theorem fallback_resolution (cfg : config) (names : dict Z string) (r : ritual) :
  ((cfg_tiers cfg = None \/ cfg_class_tiers cfg = None) ->
     let default_pct := match cfg_default cfg with Some d => d | None => 100 end in
     let modifiers := match cfg_ritpow_modifiers cfg with Some m => m | None => [] end in
     (ritpow r = None
      \/ exists n, ritpow r = Some n
                   /\ dict_get String.eqb (str_of_int n) modifiers = None) ->
     category_percentage cfg names r = default_pct)
  /\ (forall tiers class_tiers,
        cfg_tiers cfg = Some tiers -> cfg_class_tiers cfg = Some class_tiers ->
        (ritpow r = None
         \/ exists n, ritpow r = Some n
                      /\ forall nm, In (n, nm) names ->
                                    dict_get String.eqb nm class_tiers = None) ->
        category_percentage cfg names r = 100).
Proof.
  split.
  - intros Hflat default_pct modifiers Hr.
    unfold category_percentage, process_config.
    assert (E : match cfg_tiers cfg, cfg_class_tiers cfg with
                | Some tiers, Some class_tiers =>
                    (100, tier_modifiers tiers class_tiers (name_to_id names),
                     Some tiers, Some class_tiers)
                | _, _ => (default_pct, modifiers, None, None)
                end = (default_pct, modifiers, None, None)).
    { destruct Hflat as [-> | H]; [reflexivity|].
      rewrite H. now destruct (cfg_tiers cfg). }
    fold default_pct modifiers. rewrite E. unfold class_pct.
    destruct Hr as [-> | (n & -> & ->)]; reflexivity.
  - intros tiers class_tiers Ht Hc Hr.
    unfold category_percentage, process_config. rewrite Ht, Hc. unfold class_pct.
    destruct Hr as [-> | (n & -> & Hn)]; [reflexivity|].
    destruct (dict_get String.eqb (str_of_int n) _) as [p|] eqn:E; [|reflexivity].
    apply tier_modifier_has_name in E. destruct E as (nm & tier & Hin & Hct).
    apply (in_dict_get String.eqb String.eqb_eq) in Hct. destruct Hct as [v Hv].
    rewrite (Hn nm Hin) in Hv. discriminate.
Qed.

Lemma fallback_resolution_witness :
  category_percentage
    (mkConfig None None (Some [("S", 50)]) (Some [("Bar", "S")]) None None None)
    [(3, "Foo"); (4, "Bar")]
    (mkRitual "A" [mkCost 0 10] (Some 3) (Some "Foo") None) = 100.
Proof.
  apply (proj2 (fallback_resolution
                  (mkConfig None None (Some [("S", 50)]) (Some [("Bar", "S")]) None None None)
                  [(3, "Foo"); (4, "Bar")]
                  (mkRitual "A" [mkCost 0 10] (Some 3) (Some "Foo") None))
           [("S", 50)] [("Bar", "S")] eq_refl eq_refl).
  right. exists 3. split; [reflexivity|].
  intros nm [H|[H|[]]]; [injection H as <-; reflexivity | discriminate H].
Defined.

End C5.

(** ** Claim C2: the effective percentage *)

Module C2.
Import Text TextFacts Py Tiered TieredGen ConfigFacts.

(** C2. The effective percentage of a ritual is the floor of
    (category percentage * level percentage) / 100: it is the one integer
    [e] with [100 * e <= product < 100 * e + 100]. The level percentage is
    the entry of [level_modifiers] for the level of the ritual, written as
    a key, when there is one, and 100 otherwise (no level, or no such
    key); for a mapping given by integer levels this is the entry of the
    level. A category at 50 and a level 5 at 80 give 40 for a ritual of
    level 5, and its cost of 10 is written as 4. *)
Theorem effective_percentage_floor
    (default_pct : Z) (ritpow_modifiers level_modifiers : dict string Z) (r : ritual) :
  let e := effective_percentage default_pct ritpow_modifiers level_modifiers r in
  let c := class_pct default_pct ritpow_modifiers r in
  let l := level_pct level_modifiers r in
  100 * e <= c * l < 100 * e + 100
  /\ (forall n p, level r = Some n ->
        dict_get String.eqb (str_of_int n) level_modifiers = Some p -> l = p)
  /\ (forall n, level r = Some n ->
        dict_get String.eqb (str_of_int n) level_modifiers = None -> l = 100)
  /\ (level r = None -> l = 100)
  /\ (forall levels n, level_modifiers = string_keys levels -> level r = Some n ->
        l = match dict_get Z.eqb n levels with Some p => p | None => 100 end)
  /\ (let r5 := mkRitual "R" [mkCost 0 10] (Some 3) (Some "Lore") (Some 5) in
      class_pct 100 [("3", 50)] r5 = 50
      /\ level_pct [("5", 80)] r5 = 80
      /\ effective_percentage 100 [("3", 50)] [("5", 80)] r5 = 40
      /\ scale 10 (PInt 40) = Ok 4
      /\ write_rituals 100 [("3", 50)] [("5", 80)] [r5]
         = (section_header r5 40 ++ select_line "selectritual" "R"
            ++ cost_line 0 4 10 ++ nl,
            Ok (mkCounters (Some 3) 1 0))).
Proof.
  intros e c l. split; [|split; [|split; [|split; [|split]]]].
  - unfold e, effective_percentage. fold c l.
    pose proof (Z.div_mod (c * l) 100 ltac:(lia)).
    pose proof (Z.mod_pos_bound (c * l) 100 ltac:(lia)). lia.
  - intros n p Hl Hg. unfold l, level_pct. now rewrite Hl, Hg.
  - intros n Hl Hg. unfold l, level_pct. now rewrite Hl, Hg.
  - intros Hl. unfold l, level_pct. now rewrite Hl.
  - intros levels n -> Hl. unfold l, level_pct. rewrite Hl.
    now rewrite string_keys_get.
  - vm_compute. repeat split.
Qed.

Lemma effective_percentage_floor_witness :
  level_pct [("5", 80)] (mkRitual "R" [mkCost 0 10] (Some 3) (Some "Lore") (Some 5)) = 80.
Proof.
  apply (proj1 (proj2 (effective_percentage_floor 100 [("3", 50)] [("5", 80)]
                         (mkRitual "R" [mkCost 0 10] (Some 3) (Some "Lore") (Some 5))))
           5 80); reflexivity.
Defined.

End C2.

(** * Further properties of the two scripts *)

(** ** What a match tells about the subject *)

Module MatchFacts.
Import Text TextFacts.

Lemma lit_sound {A} p : forall (k : matcher A) s a,
  lit p k s = Some a -> exists rest, s = p ++ rest /\ k rest = Some a.
Proof.
  induction p as [|c p IH]; intros k s a H; cbn in H.
  - exists s. split; [reflexivity | exact H].
  - destruct s as [|b s]; [discriminate|].
    destruct (Ascii.eqb_spec c b) as [->|]; [|discriminate].
    apply IH in H. destruct H as (rest & -> & H).
    exists rest. split; [reflexivity | exact H].
Qed.

(** A match of [(c+)] takes a non-empty run of the class and hands it to
    the continuation. *)
Lemma plus1_sound {A} f s : forall (k : string -> matcher A) a,
  plus1 f k s = Some a ->
  exists run rest,
    s = run ++ rest /\ run <> EmptyString /\ all_chars f run = true
    /\ k run rest = Some a.
Proof.
  induction s as [|c r IH]; intros k a H; cbn in H; [discriminate|].
  destruct (f c) eqn:Fc; [|discriminate].
  destruct (plus1 f (fun run => k (String c run)) r) as [a'|] eqn:E.
  - injection H as ->. apply IH in E.
    destruct E as (run & rest & -> & _ & Hall & Hk).
    exists (String c run), rest. repeat split; try discriminate; auto.
    cbn. now rewrite Fc, Hall.
  - exists (String c EmptyString), r. repeat split; try discriminate; auto.
    cbn. now rewrite Fc.
Qed.

Lemma int_of_digits_nonneg ds : 0 <= int_of_digits ds.
Proof.
  unfold int_of_digits. destruct (NilEmpty.uint_of_string ds); [|lia].
  unfold Z.of_uint. apply N2Z.is_nonneg.
Qed.

Lemma digits1_sound {A} (k : Z -> matcher A) s a :
  digits1 k s = Some a -> exists n rest, 0 <= n /\ k n rest = Some a.
Proof.
  unfold digits1. intros H. apply plus1_sound in H.
  destruct H as (run & rest & _ & _ & _ & H).
  exists (int_of_digits run), rest. split; [apply int_of_digits_nonneg | exact H].
Qed.

Lemma spaces1_sound {A} (k : matcher A) s a :
  spaces1 k s = Some a -> exists rest, k rest = Some a.
Proof.
  unfold spaces1. intros H. apply plus1_sound in H.
  destruct H as (run & rest & _ & _ & _ & H). now exists rest.
Qed.

(** The two numbers of a cost line are not negative. *)
Lemma re_cost_nonneg s t a : re_cost s = Some (t, a) -> 0 <= t /\ 0 <= a.
Proof.
  unfold re_cost. intros H.
  apply lit_sound in H. destruct H as (r1 & _ & H).
  apply spaces1_sound in H. destruct H as (r2 & H).
  apply digits1_sound in H. destruct H as (t' & r3 & Ht & H).
  apply spaces1_sound in H. destruct H as (r4 & H).
  apply digits1_sound in H. destruct H as (a' & r5 & Ha & H).
  unfold accept in H. injection H as <- <-. split; assumption.
Qed.

Lemma re_keyword_int_nonneg kw s n : re_keyword_int kw s = Some n -> 0 <= n.
Proof.
  unfold re_keyword_int. intros H.
  apply lit_sound in H. destruct H as (r1 & _ & H).
  apply spaces1_sound in H. destruct H as (r2 & H).
  apply digits1_sound in H. destruct H as (n' & r3 & Hn & H).
  unfold accept in H. now injection H as <-.
Qed.

Lemma re_ritpow_nonneg s n g : re_ritpow s = Some (n, g) -> 0 <= n.
Proof.
  unfold re_ritpow. intros H.
  apply lit_sound in H. destruct H as (r1 & _ & H).
  apply spaces1_sound in H. destruct H as (r2 & H).
  apply digits1_sound in H. destruct H as (n' & r3 & Hn & H).
  apply spaces1_sound in H. destruct H as (r4 & H).
  apply lit_sound in H. destruct H as (r5 & _ & H).
  apply spaces1_sound in H. destruct H as (r6 & H).
  apply plus1_sound in H. destruct H as (run & r7 & _ & _ & _ & H).
  unfold accept in H. now injection H as <- _.
Qed.

(** The name of a record start is not empty and holds no double quote. *)
Lemma re_record_start_name kw s name :
  re_record_start kw s = Some name ->
  name <> EmptyString /\ all_chars not_dquote name = true.
Proof.
  unfold re_record_start, quoted. intros H.
  apply lit_sound in H. destruct H as (r1 & _ & H).
  apply spaces1_sound in H. destruct H as (r2 & H).
  apply lit_sound in H. destruct H as (r3 & _ & H).
  apply plus1_sound in H. destruct H as (run & r4 & _ & Hne & Hall & H).
  apply lit_sound in H. destruct H as (r5 & _ & H).
  unfold accept in H. injection H as <-. split; assumption.
Qed.

Lemma rstrip_result s : rstrip s = EmptyString \/ ends_nonspace (rstrip s) = true.
Proof.
  induction s as [|c r IH]; cbn; [now left|].
  destruct (rstrip r) as [|x y] eqn:E.
  - destruct (is_space c) eqn:S; [now left | right; cbn; now rewrite S].
  - right. destruct IH as [IH|IH]; [discriminate|]. exact IH.
Qed.

Lemma match_trait_sound traits s t v :
  Tiered.match_trait traits s = Some (t, v) -> In t traits /\ 0 <= v.
Proof.
  induction traits as [|t0 traits IH]; cbn; [discriminate|].
  destruct (re_keyword_int t0 s) as [v0|] eqn:E.
  - intros [= <- <-]. split; [now left | now apply re_keyword_int_nonneg in E].
  - intros H. apply IH in H. destruct H. split; [now right | assumption].
Qed.

End MatchFacts.

(** ** Invariants of the parsers *)

Module ParserInvariants.
Import Text TextFacts MatchFacts.

(** A property of rituals that holds for a fresh record and is kept when a
    matched cost is added holds for every ritual the flat parser returns. *)
Lemma flat_invariant (P : Flat.ritual -> Prop) :
  (forall name, name <> EmptyString -> all_chars not_dquote name = true ->
                P (Flat.mkRitual name [])) ->
  (forall r t a, P r -> 0 <= t -> 0 <= a ->
                 P (Flat.mkRitual (Flat.name r) (Flat.costs r ++ [Flat.mkCost t a]))) ->
  forall text, Forall P (Flat.parse_ritual_data text).
Proof.
  intros Hnew Hadd text.
  assert (I : forall lines st,
             Forall P (Flat.rituals st) ->
             (forall r, Flat.current_ritual st = Some r -> P r) ->
             Forall P (Flat.rituals (fold_left Flat.parse_line lines st))
             /\ (forall r, Flat.current_ritual (fold_left Flat.parse_line lines st) = Some r
                           -> P r)).
  { induction lines as [|l lines IH]; intros st H1 H2; cbn [fold_left]; [now split|].
    apply IH; unfold Flat.parse_line.
    - destruct (re_record_start "newritual" (strip (before_hash l))) eqn:E;
        cbn [Flat.rituals].
      + destruct (Flat.current_ritual st) as [r|] eqn:C; cbn; [|exact H1].
        destruct (Flat.costs r); [exact H1|].
        apply Forall_app. split; [exact H1|]. constructor; [now apply H2 | constructor].
      + destruct (Flat.current_ritual st); [|exact H1].
        destruct (re_cost (strip (before_hash l))) as [[t a]|]; exact H1.
    - intros r. destruct (re_record_start "newritual" (strip (before_hash l))) eqn:E;
        cbn [Flat.current_ritual].
      + intros [= <-]. apply re_record_start_name in E. now apply Hnew.
      + destruct (Flat.current_ritual st) as [r0|] eqn:C; [|now rewrite C].
        destruct (re_cost (strip (before_hash l))) as [[t a]|] eqn:Ec;
          cbn [Flat.current_ritual].
        * intros [= <-]. apply re_cost_nonneg in Ec. apply Hadd; [now apply H2 | tauto | tauto].
        * rewrite C. intros [= <-]. now apply H2. }
  unfold Flat.parse_ritual_data, Flat.parse_lines.
  destruct (I (file_lines text) (Flat.mkParser [] None)) as [I1 I2];
    [constructor | discriminate |].
  unfold Flat.flush.
  destruct (Flat.current_ritual _) as [r|] eqn:C; [|exact I1].
  destruct (Flat.costs r); [exact I1|].
  apply Forall_app. split; [exact I1|]. constructor; [now apply I2 | constructor].
Qed.

(** The same for the tiered parser; the property may mention the table
    of category names, and must be kept when the table grows. *)
Lemma tiered_invariant (P : dict Z string -> Tiered.ritual -> Prop) :
  (forall names r k v, P names r -> P (dict_set Z.eqb k v names) r) ->
  (forall names name, name <> EmptyString -> all_chars not_dquote name = true ->
                      P names (Tiered.mkRitual name [] None None None)) ->
  (forall names r n nm, P names r -> 0 <= n ->
     P (dict_set Z.eqb n nm names)
       (Tiered.mkRitual (Tiered.name r) (Tiered.costs r) (Some n) (Some nm) (Tiered.level r))) ->
  (forall names r l, P names r -> 0 <= l ->
     P names (Tiered.mkRitual (Tiered.name r) (Tiered.costs r) (Tiered.ritpow r)
                (Tiered.ritpow_name r) (Some l))) ->
  (forall names r t a, P names r -> 0 <= t -> 0 <= a ->
     P names (Tiered.mkRitual (Tiered.name r) (Tiered.costs r ++ [Tiered.mkCost t a])
                (Tiered.ritpow r) (Tiered.ritpow_name r) (Tiered.level r))) ->
  forall text,
    Forall (P (snd (Tiered.parse_ritual_data text))) (fst (Tiered.parse_ritual_data text)).
Proof.
  intros Hmono Hnew Hpow Hlev Hadd text.
  set (Inv := fun st : Tiered.parser =>
                Forall (P (Tiered.ritpow_names st)) (Tiered.rituals st)
                /\ (forall r, Tiered.current_ritual st = Some r -> P (Tiered.ritpow_names st) r)).
  assert (Step : forall st l, Inv st -> Inv (Tiered.parse_line st l)).
  { intros st l HI. pose proof HI as [H1 H2]. unfold Tiered.parse_line.
    destruct (re_record_start "newritual" l) eqn:E.
    - split; cbn [Tiered.rituals Tiered.current_ritual Tiered.ritpow_names].
      + unfold Tiered.flush. destruct (Tiered.current_ritual st) as [r|] eqn:C; [|exact H1].
        destruct (Tiered.costs r); [exact H1|].
        apply Forall_app. split; [exact H1|]. constructor; [now apply H2 | constructor].
      + intros r [= <-]. apply re_record_start_name in E. now apply Hnew.
    - destruct (Tiered.current_ritual st) as [r0|] eqn:C; [|exact HI].
      destruct (re_ritpow l) as [[n g]|] eqn:Er.
      { split; cbn [Tiered.rituals Tiered.current_ritual Tiered.ritpow_names].
        - eapply Forall_impl; [|exact H1]. intros r Hr. now apply Hmono.
        - intros r [= <-]. apply re_ritpow_nonneg in Er. apply Hpow; [now apply H2 | exact Er]. }
      destruct (re_keyword_int "level" (before_hash l)) as [lv|] eqn:El.
      { split; cbn [Tiered.rituals Tiered.current_ritual Tiered.ritpow_names]; [exact H1|].
        intros r [= <-]. apply re_keyword_int_nonneg in El. apply Hlev; [now apply H2 | exact El]. }
      destruct (re_cost (before_hash l)) as [[t a]|] eqn:Ec.
      { split; cbn [Tiered.rituals Tiered.current_ritual Tiered.ritpow_names]; [exact H1|].
        intros r [= <-]. apply re_cost_nonneg in Ec. apply Hadd; [now apply H2 | tauto | tauto]. }
      exact HI. }
  assert (Fold : forall lines st, Inv st -> Inv (fold_left Tiered.parse_line lines st)).
  { induction lines as [|l lines IH]; intros st H; cbn [fold_left]; [exact H|].
    apply IH, Step, H. }
  unfold Tiered.parse_ritual_data, Tiered.parse_lines. cbn [fst snd].
  destruct (Fold (file_lines text) (Tiered.mkParser [] None [])) as [I1 I2].
  { split; [constructor | discriminate]. }
  unfold Tiered.flush.
  destruct (Tiered.current_ritual _) as [r|] eqn:C; [|exact I1].
  destruct (Tiered.costs r); [exact I1|].
  apply Forall_app. split; [exact I1|]. constructor; [now apply I2 | constructor].
Qed.

(** The same for the parser of monsters. *)
Lemma monster_invariant (P : Tiered.monster -> Prop) :
  (forall name, name <> EmptyString -> all_chars not_dquote name = true ->
                P (Tiered.mkMonster name [])) ->
  (forall m t v line, P m -> In t Tiered.SPAWN_TRAITS -> 0 <= v ->
     P (Tiered.mkMonster (Tiered.mname m)
          (Tiered.spawns m ++ [Tiered.mkSpawn t v (Tiered.line_comment line)]))) ->
  forall text, Forall P (Tiered.parse_monster_data text).
Proof.
  intros Hnew Hadd text.
  set (Inv := fun st : Tiered.mparser =>
                Forall P (Tiered.monsters st)
                /\ (forall m, Tiered.current_monster st = Some m -> P m)).
  assert (Step : forall st l, Inv st -> Inv (Tiered.parse_monster_line st l)).
  { intros st l HI. pose proof HI as [H1 H2]. unfold Tiered.parse_monster_line.
    destruct (re_record_start "newmonster" l) eqn:E.
    - split; cbn [Tiered.monsters Tiered.current_monster].
      + unfold Tiered.mflush. destruct (Tiered.current_monster st) as [m|] eqn:C; [|exact H1].
        destruct (Tiered.spawns m); [exact H1|].
        apply Forall_app. split; [exact H1|]. constructor; [now apply H2 | constructor].
      + intros m [= <-]. apply re_record_start_name in E. now apply Hnew.
    - destruct (Tiered.current_monster st) as [m0|] eqn:C; [|exact HI].
      destruct (Tiered.match_trait Tiered.SPAWN_TRAITS (before_hash l)) as [[t v]|] eqn:Et.
      + split; cbn [Tiered.monsters Tiered.current_monster]; [exact H1|].
        intros m [= <-]. apply match_trait_sound in Et. apply Hadd; [now apply H2 | tauto | tauto].
      + exact HI. }
  assert (Fold : forall lines st, Inv st -> Inv (fold_left Tiered.parse_monster_line lines st)).
  { induction lines as [|l lines IH]; intros st H; cbn [fold_left]; [exact H|].
    apply IH, Step, H. }
  unfold Tiered.parse_monster_data, Tiered.parse_monster_lines.
  destruct (Fold (file_lines text) (Tiered.mkMParser [] None)) as [I1 I2].
  { split; [constructor | discriminate]. }
  unfold Tiered.mflush.
  destruct (Tiered.current_monster _) as [m|] eqn:C; [|exact I1].
  destruct (Tiered.spawns m); [exact I1|].
  apply Forall_app. split; [exact I1|]. constructor; [now apply I2 | constructor].
Qed.

(** Assigning to a dictionary keeps its keys distinct and loses no key. *)
Lemma dict_set_keys_in (k : Z) (v : string) d x :
  In x (map fst (dict_set Z.eqb k v d)) -> x = k \/ In x (map fst d).
Proof.
  induction d as [|[k' v'] d IH]; cbn.
  - intros [<-|[]]. now left.
  - destruct (Z.eqb_spec k k') as [->|]; cbn.
    + intros [<-|Hx]; [right; now left | right; now right].
    + intros [<-|Hx]; [right; now left|].
      destruct (IH Hx) as [->|]; [now left | right; now right].
Qed.

Lemma dict_set_keys_nodup (k : Z) (v : string) d :
  NoDup (map fst d) -> NoDup (map fst (dict_set Z.eqb k v d)).
Proof.
  induction d as [|[k' v'] d IH]; cbn; intros H.
  - constructor; [intros [] | constructor].
  - inversion H as [|? ? Hn Hd]; subst.
    destruct (Z.eqb_spec k k') as [->|Hne]; cbn.
    + now constructor.
    + constructor; [|now apply IH].
      intros Hin. apply dict_set_keys_in in Hin. destruct Hin as [->|Hin]; auto.
Qed.

Lemma dict_set_keeps (k : Z) (v : string) d n :
  dict_mem Z.eqb n d = true -> dict_mem Z.eqb n (dict_set Z.eqb k v d) = true.
Proof.
  unfold dict_mem. destruct (Z.eq_dec n k) as [->|Hne].
  - intros _. now rewrite (dict_get_set_same Z.eqb Z.eqb_eq).
  - now rewrite (dict_get_set_other Z.eqb Z.eqb_eq) by exact Hne.
Qed.

Lemma tiered_names_nodup text : NoDup (map fst (snd (Tiered.parse_ritual_data text))).
Proof.
  unfold Tiered.parse_ritual_data, Tiered.parse_lines. cbn [snd].
  assert (Fold : forall lines st,
             NoDup (map fst (Tiered.ritpow_names st)) ->
             NoDup (map fst (Tiered.ritpow_names (fold_left Tiered.parse_line lines st)))).
  { induction lines as [|l lines IH]; intros st H; cbn [fold_left]; [exact H|].
    apply IH. unfold Tiered.parse_line.
    destruct (re_record_start "newritual" l); [exact H|].
    destruct (Tiered.current_ritual st); [|exact H].
    destruct (re_ritpow l) as [[n g]|]; [now apply dict_set_keys_nodup|].
    destruct (re_keyword_int "level" (before_hash l)); [exact H|].
    destruct (re_cost (before_hash l)) as [[t a]|]; exact H. }
  apply Fold. constructor.
Qed.

End ParserInvariants.

(** ** What the parsers return *)

Module ParsedData.
Import Text TextFacts MatchFacts ParserInvariants.

(** Every number the parsers read is a natural number: resource types and
    amounts in both ritual parsers, category ids and levels in the tiered
    one, spawn values of monsters. *)
Theorem parsed_numbers_nonneg (text : string) :
  Forall (fun r => Forall (fun c => 0 <= Flat.ctype c /\ 0 <= Flat.amount c) (Flat.costs r))
         (Flat.parse_ritual_data text)
  /\ Forall (fun r =>
               Forall (fun c => 0 <= Tiered.ctype c /\ 0 <= Tiered.amount c) (Tiered.costs r)
               /\ (forall n, Tiered.ritpow r = Some n -> 0 <= n)
               /\ (forall l, Tiered.level r = Some l -> 0 <= l))
            (fst (Tiered.parse_ritual_data text))
  /\ Forall (fun m => Forall (fun s => 0 <= Tiered.value s) (Tiered.spawns m))
            (Tiered.parse_monster_data text).
Proof.
  split; [|split].
  - apply flat_invariant.
    + intros name _ _. constructor.
    + intros r t a H Ht Ha. cbn. apply Forall_app. split; [exact H|].
      constructor; [cbn; split; assumption | constructor].
  - apply (tiered_invariant
             (fun _ r =>
                Forall (fun c => 0 <= Tiered.ctype c /\ 0 <= Tiered.amount c) (Tiered.costs r)
                /\ (forall n, Tiered.ritpow r = Some n -> 0 <= n)
                /\ (forall l, Tiered.level r = Some l -> 0 <= l))).
    + intros names r k v H. exact H.
    + intros names name _ _. cbn. repeat split; try constructor; discriminate.
    + intros names r n nm (H1 & H2 & H3) Hn. cbn. repeat split; auto.
      intros n' [= <-]. exact Hn.
    + intros names r l (H1 & H2 & H3) Hl. cbn. repeat split; auto.
      intros l' [= <-]. exact Hl.
    + intros names r t a (H1 & H2 & H3) Ht Ha. cbn. repeat split; auto.
      apply Forall_app. split; [exact H1|].
      constructor; [cbn; split; assumption | constructor].
  - apply monster_invariant.
    + intros name _ _. constructor.
    + intros m t v line H _ Hv. cbn. apply Forall_app. split; [exact H|].
      constructor; [exact Hv | constructor].
Qed.

(** The name of every record returned is not empty and holds no double
    quote; every spawn trait of a monster is one of the seven traits of
    [SPAWN_TRAITS], and its comment is empty or ends with a character
    that is not white space. *)
Theorem parsed_names_and_traits (text : string) :
  Forall (fun r => Flat.name r <> EmptyString /\ all_chars not_dquote (Flat.name r) = true)
         (Flat.parse_ritual_data text)
  /\ Forall (fun r => Tiered.name r <> EmptyString
                      /\ all_chars not_dquote (Tiered.name r) = true)
            (fst (Tiered.parse_ritual_data text))
  /\ Forall (fun m => Tiered.mname m <> EmptyString
                      /\ all_chars not_dquote (Tiered.mname m) = true
                      /\ Forall (fun s => In (Tiered.trait s) Tiered.SPAWN_TRAITS
                                          /\ (Tiered.comment s = EmptyString
                                              \/ ends_nonspace (Tiered.comment s) = true))
                                (Tiered.spawns m))
            (Tiered.parse_monster_data text).
Proof.
  split; [|split].
  - apply flat_invariant; cbn; auto.
  - apply (tiered_invariant
             (fun _ r => Tiered.name r <> EmptyString
                         /\ all_chars not_dquote (Tiered.name r) = true)); cbn; auto.
  - apply monster_invariant.
    + intros name H1 H2. cbn. repeat split; auto.
    + intros m t v line (H1 & H2 & H3) Ht _. cbn. repeat split; auto.
      apply Forall_app. split; [exact H3|]. constructor; [|constructor].
      cbn. split; [exact Ht|]. unfold Tiered.line_comment.
      destruct (after_hash line); [apply rstrip_result | now left].
Qed.

(** The table of category names has one entry per id, and it has an entry
    for the id of every ritual returned; a ritual has a category id
    exactly when it has a category name. *)
Theorem name_table_covers_rituals (text : string) :
  NoDup (map fst (snd (Tiered.parse_ritual_data text)))
  /\ Forall (fun r =>
               (forall n, Tiered.ritpow r = Some n ->
                          exists nm, dict_get Z.eqb n (snd (Tiered.parse_ritual_data text))
                                     = Some nm)
               /\ (Tiered.ritpow r = None <-> Tiered.ritpow_name r = None))
            (fst (Tiered.parse_ritual_data text)).
Proof.
  split; [apply tiered_names_nodup|].
  apply (tiered_invariant
           (fun names r =>
              (forall n, Tiered.ritpow r = Some n ->
                         exists nm, dict_get Z.eqb n names = Some nm)
              /\ (Tiered.ritpow r = None <-> Tiered.ritpow_name r = None))).
  - intros names r k v [H1 H2]. split; [|exact H2].
    intros n Hn. destruct (H1 n Hn) as [nm Hnm].
    assert (M : dict_mem Z.eqb n (dict_set Z.eqb k v names) = true).
    { apply dict_set_keeps. unfold dict_mem. now rewrite Hnm. }
    unfold dict_mem in M.
    destruct (dict_get Z.eqb n (dict_set Z.eqb k v names)) as [x|]; [eauto | discriminate].
  - intros names name _ _. cbn. split; [discriminate | tauto].
  - intros names r n nm [H1 H2] Hn. cbn. split.
    + intros n' [= <-]. exists nm. apply (dict_get_set_same Z.eqb Z.eqb_eq).
    + split; discriminate.
  - intros names r l [H1 H2] _. cbn. split; assumption.
  - intros names r t a [H1 H2] _ _. cbn. split; assumption.
Qed.

End ParsedData.

(** ** The tiered parsers on the lines the tiered emitters write *)

Module TieredReadBack.
Import Text TextFacts IOFacts CostLine MatchFacts.

Lemma digits_then_outside s rest :
  all_chars is_digit s = true -> s <> EmptyString ->
  starts_outside is_space (s ++ rest) = true.
Proof. apply digits_start_outside_space. Qed.

(** The cost pattern on a cost head followed by anything that does not
    start with a digit. *)
Lemma re_cost_head_then t v rest :
  0 <= t -> 0 <= v -> starts_outside is_digit rest = true ->
  re_cost (cost_head t v ++ rest) = Some (t, v).
Proof.
  intros Ht Hv Hr.
  destruct (str_of_nonneg t Ht) as (Dt & Nt & It).
  destruct (str_of_nonneg v Hv) as (Dv & Nv & Iv).
  unfold re_cost, cost_head. rewrite !append_assoc.
  change ("cost " ++ str_of_int t ++ " " ++ str_of_int v ++ rest)
    with ("cost" ++ " " ++ str_of_int t ++ " " ++ str_of_int v ++ rest).
  rewrite lit_app. unfold spaces1 at 1.
  apply plus1_run; [discriminate | reflexivity | now apply digits_then_outside |].
  unfold digits1 at 1.
  apply plus1_run; [exact Nt | exact Dt | reflexivity |].
  rewrite It. unfold spaces1.
  apply plus1_run; [discriminate | reflexivity | now apply digits_then_outside |].
  unfold digits1.
  apply plus1_run; [exact Nv | exact Dv | exact Hr |].
  rewrite Iv. reflexivity.
Qed.

Lemma cost_line_before_hash t v a :
  0 <= t -> 0 <= v -> before_hash (cost_line t v a) = cost_head t v ++ "  ".
Proof.
  intros Ht Hv. destruct (cost_line_split t v a) as [tail ->].
  apply before_hash_app. now apply cost_head_no_hash.
Qed.

(** A trait keyword, a space and a number, followed by anything that does
    not start with a digit, is read by the pattern of that trait. *)
Lemma re_keyword_int_then kw v rest :
  0 <= v -> starts_outside is_digit rest = true ->
  re_keyword_int kw (kw ++ " " ++ str_of_int v ++ rest) = Some v.
Proof.
  intros Hv Hr. destruct (str_of_nonneg v Hv) as (Dv & Nv & Iv).
  unfold re_keyword_int. rewrite lit_app. unfold spaces1.
  change (" " ++ str_of_int v ++ rest) with (String " " EmptyString ++ str_of_int v ++ rest).
  apply plus1_run; [discriminate | reflexivity | now apply digits_then_outside |].
  unfold digits1.
  apply plus1_run; [exact Nv | exact Dv | exact Hr |].
  rewrite Iv. reflexivity.
Qed.

(** Among the seven traits the first whose pattern matches a line that
    starts with a trait and a space is that trait. *)
Lemma match_trait_own t x v :
  In t Tiered.SPAWN_TRAITS ->
  re_keyword_int t (t ++ String " " x) = Some v ->
  Tiered.match_trait Tiered.SPAWN_TRAITS (t ++ String " " x) = Some (t, v).
Proof.
  intros Hin H. unfold Tiered.SPAWN_TRAITS in *.
  repeat (destruct Hin as [<-|Hin]; [lazy in H |- *; rewrite H; reflexivity|]).
  contradiction.
Qed.

Lemma after_hash_app a b :
  all_chars (fun c => negb (Ascii.eqb c "#")) a = true ->
  after_hash (a ++ String "#" b) = Some b.
Proof.
  induction a as [|c a IH]; cbn; [reflexivity|].
  intros H. apply andb_true_iff in H as [H1 H2].
  apply negb_true_iff in H1. rewrite H1. now apply IH.
Qed.

Lemma trait_no_hash t :
  In t Tiered.SPAWN_TRAITS -> all_chars (fun c => negb (Ascii.eqb c "#")) t = true.
Proof.
  unfold Tiered.SPAWN_TRAITS. intros H.
  repeat (destruct H as [<-|H]; [reflexivity|]). contradiction.
Qed.

Lemma trait_not_record_start t x :
  In t Tiered.SPAWN_TRAITS -> re_record_start "newmonster" (t ++ x) = None.
Proof.
  unfold Tiered.SPAWN_TRAITS. intros H.
  repeat (destruct H as [<-|H]; [reflexivity|]). contradiction.
Qed.

(** The part of a spawn line before its comment, and its comment. *)
Lemma spawn_line_split s v :
  exists tail,
    TieredGen.spawn_line s v
    = (Tiered.trait s ++ " " ++ str_of_int v ++ "  ") ++ String "#" (" " ++ tail ++ nl)
    /\ tail = "was " ++ str_of_int (Tiered.value s)
              ++ match Tiered.comment s with
                 | EmptyString => EmptyString
                 | c => "; " ++ c
                 end.
Proof.
  eexists. split; [|reflexivity].
  unfold TieredGen.spawn_line. destruct (Tiered.comment s); rewrite !append_assoc;
    cbn [append]; rewrite ?append_nil_r; reflexivity.
Qed.

Lemma spawn_head_no_hash s v :
  In (Tiered.trait s) Tiered.SPAWN_TRAITS -> 0 <= v ->
  all_chars (fun c => negb (Ascii.eqb c "#"))
            (Tiered.trait s ++ " " ++ str_of_int v ++ "  ") = true.
Proof.
  intros Ht Hv. destruct (str_of_nonneg v Hv) as (Dv & _ & _).
  rewrite !all_chars_app, (trait_no_hash _ Ht).
  rewrite (all_chars_weaken _ _ _ digit_not_hash Dv). reflexivity.
Qed.

End TieredReadBack.

Module ReadBack.
Import Text TextFacts IOFacts CostLine MatchFacts TieredReadBack.

(** A cost line written by the tiered emitter is read by the tiered
    parser, inside a record, as a cost with the resource type and the
    scaled value of the line; it changes nothing else. *)
Theorem tiered_cost_line_read_back st r t v a :
  Tiered.current_ritual st = Some r -> 0 <= t -> 0 <= v ->
  Tiered.parse_line st (cost_line t v a)
  = Tiered.mkParser (Tiered.rituals st)
      (Some (Tiered.mkRitual (Tiered.name r) (Tiered.costs r ++ [Tiered.mkCost t v])
               (Tiered.ritpow r) (Tiered.ritpow_name r) (Tiered.level r)))
      (Tiered.ritpow_names st).
Proof.
  intros Hc Ht Hv. unfold Tiered.parse_line.
  change (re_record_start "newritual" (cost_line t v a)) with (@None string).
  rewrite Hc.
  change (re_ritpow (cost_line t v a)) with (@None (Z * string)).
  rewrite cost_line_before_hash by assumption.
  change (re_keyword_int "level" (cost_head t v ++ "  ")) with (@None Z).
  now rewrite re_cost_head_then by auto.
Qed.

Lemma tiered_cost_line_read_back_witness :
  Tiered.parse_line
    (Tiered.mkParser [] (Some (Tiered.mkRitual "A" [] (Some 3) (Some "Lore") None)) [(3, "Lore")])
    (cost_line 0 4 10)
  = Tiered.mkParser []
      (Some (Tiered.mkRitual "A" ([] ++ [Tiered.mkCost 0 4]) (Some 3) (Some "Lore") None))
      [(3, "Lore")].
Proof.
  apply (tiered_cost_line_read_back
           (Tiered.mkParser [] (Some (Tiered.mkRitual "A" [] (Some 3) (Some "Lore") None))
                            [(3, "Lore")])
           (Tiered.mkRitual "A" [] (Some 3) (Some "Lore") None) 0 4 10);
    [reflexivity | lia | lia].
Defined.

(** A spawn line written by the spawn pass is read by the parser of
    monsters, inside a record, as a spawn with the trait and the scaled
    value of the line; the comment read is the note [was N] of the line,
    followed by the comment the spawn had when it has one. *)
Theorem spawn_line_read_back st m s v :
  Tiered.current_monster st = Some m ->
  In (Tiered.trait s) Tiered.SPAWN_TRAITS -> 0 <= v -> 0 <= Tiered.value s ->
  (Tiered.comment s = EmptyString \/ ends_nonspace (Tiered.comment s) = true) ->
  Tiered.parse_monster_line st (TieredGen.spawn_line s v)
  = Tiered.mkMParser (Tiered.monsters st)
      (Some (Tiered.mkMonster (Tiered.mname m)
               (Tiered.spawns m
                ++ [Tiered.mkSpawn (Tiered.trait s) v
                      ("was " ++ str_of_int (Tiered.value s)
                       ++ match Tiered.comment s with
                          | EmptyString => EmptyString
                          | c => "; " ++ c
                          end)]))).
Proof.
  intros Hc Ht Hv Ho Hcm. unfold Tiered.parse_monster_line.
  destruct (spawn_line_split s v) as (tail & E & Etail). rewrite E.
  pose proof (spawn_head_no_hash s v Ht Hv) as NH.
  assert (M : Tiered.match_trait Tiered.SPAWN_TRAITS
                (Tiered.trait s ++ " " ++ str_of_int v ++ "  ") = Some (Tiered.trait s, v)).
  { apply (match_trait_own (Tiered.trait s) (str_of_int v ++ "  ") v Ht).
    apply (re_keyword_int_then (Tiered.trait s) v "  "); [exact Hv | reflexivity]. }
  assert (R : re_record_start "newmonster"
                ((Tiered.trait s ++ " " ++ str_of_int v ++ "  ")
                 ++ String "#" (" " ++ tail ++ nl)) = None).
  { rewrite append_assoc. now apply trait_not_record_start. }
  remember (Tiered.trait s ++ " " ++ str_of_int v ++ "  ") as head eqn:Eh.
  rewrite R, Hc. rewrite (before_hash_app _ _ NH). rewrite M.
  do 4 f_equal. unfold Tiered.line_comment.
  rewrite (after_hash_app _ _ NH).
  unfold strip. change (lstrip (" " ++ tail ++ nl)) with (lstrip (tail ++ nl)).
  assert (T : starts_outside is_space (tail ++ nl) = true /\ ends_nonspace tail = true).
  { subst tail. split; [reflexivity|].
    destruct (str_of_nonneg _ Ho) as (Do & No & _).
    destruct (Tiered.comment s) as [|c0 c] eqn:Ec.
    - rewrite append_nil_r. rewrite ends_nonspace_app by exact No.
      now apply digits_end_nonspace.
    - destruct Hcm as [Hcm|Hcm]; [discriminate|].
      rewrite ends_nonspace_app.
      + rewrite ends_nonspace_app by discriminate.
        change ("; " ++ String c0 c) with (String ";" (String " " (String c0 c))).
        exact Hcm.
      + destruct (str_of_int (Tiered.value s)); discriminate. }
  destruct T as [T1 T2].
  rewrite lstrip_outside by exact T1.
  rewrite rstrip_app_spaces by reflexivity.
  rewrite rstrip_ends_nonspace by exact T2. rewrite <- Etail. reflexivity.
Qed.

Lemma spawn_line_read_back_witness :
  Tiered.parse_monster_line
    (Tiered.mkMParser [] (Some (Tiered.mkMonster "Hydra" [])))
    (TieredGen.spawn_line (Tiered.mkSpawn "motherspawn" 10 "heads") 5)
  = Tiered.mkMParser []
      (Some (Tiered.mkMonster "Hydra"
               ([] ++ [Tiered.mkSpawn "motherspawn" 5 ("was " ++ str_of_int 10 ++ "; " ++ "heads")]))).
Proof.
  apply (spawn_line_read_back
           (Tiered.mkMParser [] (Some (Tiered.mkMonster "Hydra" [])))
           (Tiered.mkMonster "Hydra" [])
           (Tiered.mkSpawn "motherspawn" 10 "heads") 5);
    [reflexivity | cbn; tauto | lia | cbn; lia | right; reflexivity].
Defined.

End ReadBack.

(** ** The flat loop at any percentage *)

Module FlatLoopAny.
Import Py IO IOFacts Flat FlatGen.

(** A loop over bodies that all return writes their texts in order. *)
Lemma for_each_ok {A} (body : A -> io unit) (l : list A) :
  (forall a, In a l -> snd (body a) = Ok tt) ->
  for_each body l = write (Text.join (map (fun a => fst (body a)) l)).
Proof.
  intros H. apply for_each_write. intros a Ha.
  specialize (H a Ha). destruct (body a) as [t r]. cbn in *. now subst r.
Qed.

(** A loop that returns has run every body to its end. *)
Lemma for_each_ok_inv {A} (body : A -> io unit) (l : list A) :
  snd (for_each body l) = Ok tt -> forall a, In a l -> snd (body a) = Ok tt.
Proof.
  unfold for_each. induction l as [|x l IH]; intros H a Ha; [contradiction|].
  cbn [for_loop] in H.
  destruct (body x) as [t [[]|e]] eqn:E; cbn [bind] in H.
  - destruct (for_loop (fun (_ : unit) (a0 : A) => body a0) tt l) as [t' r'] eqn:L.
    cbn in H. subst r'.
    destruct Ha as [<-|Ha]; [now rewrite E|].
    apply IH; [reflexivity | exact Ha].
  - discriminate.
Qed.

Lemma write_cost_result percentage c :
  write_cost percentage c
  = match scale (amount c) percentage with
    | Ok v => write (cost_line (ctype c) v (amount c))
    | Raise e => (EmptyString, Raise e)
    end.
Proof. unfold write_cost. destruct (scale (amount c) percentage); reflexivity. Qed.

Lemma write_ritual_returns percentage r :
  snd (write_ritual percentage r) = Ok tt
  <-> (forall c, In c (costs r) -> exists v, scale (amount c) percentage = Ok v).
Proof.
  unfold write_ritual. rewrite bind_write. cbn [snd]. split.
  - intros H c Hc.
    destruct (for_each (write_cost percentage) (costs r)) as [t [[]|e]] eqn:E;
      cbn [bind snd fst] in H; [|discriminate].
    assert (S : snd (for_each (write_cost percentage) (costs r)) = Ok tt) by now rewrite E.
    pose proof (for_each_ok_inv _ _ S c Hc) as K. rewrite write_cost_result in K.
    destruct (scale (amount c) percentage) as [v|e]; [eauto | discriminate].
  - intros H. rewrite for_each_ok; [reflexivity|].
    intros c Hc. destruct (H c Hc) as [v Hv]. rewrite write_cost_result, Hv. reflexivity.
Qed.

Lemma write_ritual_text percentage r :
  snd (write_ritual percentage r) = Ok tt ->
  write_ritual percentage r = write (scaled_block percentage r).
Proof.
  intros H. pose proof (proj1 (write_ritual_returns percentage r) H) as K.
  unfold write_ritual, scaled_block.
  rewrite (for_each_write _
             (fun c => cost_line (ctype c) (scaled (amount c) percentage) (amount c))).
  - rewrite !bind_write. reflexivity.
  - intros c Hc. destruct (K c Hc) as [v Hv].
    rewrite write_cost_result. unfold scaled. now rewrite Hv.
Qed.

(** The flat loop returns exactly when every cost of every ritual can be
    scaled; it then has written one block per ritual of the list, in
    order, each with one cost line per cost; and a value that [scale]
    returns is never below 1, whatever the percentage. *)
Theorem flat_loop_structure (percentage : num) (rituals : list ritual) :
  (snd (write_rituals percentage rituals) = Ok tt
   <-> forall r c, In r rituals -> In c (costs r) ->
                   exists v, scale (amount c) percentage = Ok v)
  /\ (snd (write_rituals percentage rituals) = Ok tt ->
      fst (write_rituals percentage rituals)
      = Text.join (map (scaled_block percentage) rituals))
  /\ (forall a v, scale a percentage = Ok v -> 1 <= v).
Proof.
  split; [|split].
  - unfold write_rituals. split.
    + intros H r c Hr Hc.
      apply (proj1 (write_ritual_returns percentage r)); [|exact Hc].
      now apply (for_each_ok_inv _ _ H).
    + intros H. rewrite for_each_ok; [reflexivity|].
      intros r Hr. apply write_ritual_returns. intros c Hc. now apply (H r c).
  - intros H. unfold write_rituals in *.
    rewrite (for_each_write _ (scaled_block percentage)); [reflexivity|].
    intros r Hr. apply write_ritual_text. now apply (for_each_ok_inv _ _ H).
  - intros a v. unfold scale.
    destruct (mul (PInt a) percentage) as [x|]; cbn [Py.bind]; [|discriminate].
    destruct (truediv x (PInt 100)) as [y|]; cbn [Py.bind]; [|discriminate].
    destruct (ceil y) as [c|]; cbn [Py.bind]; [|discriminate].
    intros [= <-]. lia.
Qed.

End FlatLoopAny.

(** ** More on the scaling rule *)

Module ScaleMore.
Import Py RoundFacts ScaleFacts.

Lemma exact_ceil_mono n n' d : 0 < d -> n <= n' -> exact_ceil n d <= exact_ceil n' d.
Proof.
  intros Hd H. unfold exact_ceil.
  assert ((- n') / d <= (- n) / d) by (apply Z.div_le_mono; lia). lia.
Qed.

(** In the range where the arithmetic is exact the scaled value grows with
    the original value and with the percentage; at 100 percent or less a
    value of at least 1 is never raised, at 100 percent or more no value
    is lowered. *)
Theorem scale_order (a a' p p' : Z) (percentage percentage' : num) :
  0 <= a <= a' -> 0 < p <= p' -> a' * p' < 2 ^ 53 ->
  int_valued percentage p -> int_valued percentage' p' ->
  exists v v',
    scale a percentage = Ok v /\ scale a' percentage' = Ok v' /\ v <= v'
    /\ (1 <= a -> p <= 100 -> v <= a)
    /\ (100 <= p -> a <= v).
Proof.
  intros Ha Hp Hb Hv Hv'.
  assert (Hb0 : a * p <= a' * p') by nia.
  exists (Z.max 1 (exact_ceil (a * p) 100)), (Z.max 1 (exact_ceil (a' * p') 100)).
  split; [apply scale_exact; auto; lia|].
  split; [apply scale_exact; auto; lia|].
  pose proof (exact_ceil_mono (a * p) (a' * p') 100 ltac:(lia) Hb0).
  split; [lia|]. split.
  - intros H1 H2.
    pose proof (exact_ceil_mono (a * p) (a * 100) 100 ltac:(lia) ltac:(nia)) as M.
    rewrite exact_ceil_mul in M by lia. lia.
  - intros H1.
    pose proof (exact_ceil_mono (a * 100) (a * p) 100 ltac:(lia) ltac:(nia)) as M.
    rewrite exact_ceil_mul in M by lia. lia.
Qed.

Lemma scale_order_witness :
  exists v v',
    scale 10 (PInt 50) = Ok v /\ scale 12 (PFloat (Finite 75 0)) = Ok v' /\ v <= v'
    /\ (1 <= 10 -> 50 <= 100 -> v <= 10)
    /\ (100 <= 50 -> 10 <= v).
Proof.
  apply (scale_order 10 12 50 75 (PInt 50) (PFloat (Finite 75 0)));
    [lia | lia | reflexivity | reflexivity | reflexivity].
Defined.

(** A quotient of 2^1024 or more does not round to a float. *)
Lemma round_pos_overflow n d : 0 < d -> 2 ^ 1024 * d <= n -> round_pos n d = None.
Proof.
  intros Hd Hn. unfold round_pos, floor_log2.
  assert (P : 0 < 2 ^ 1024) by (apply Z.pow_pos_nonneg; lia).
  destruct (Z.leb_spec d n); [|nia].
  assert (Q : 2 ^ 1024 <= n / d) by (apply Z.div_le_lower_bound; lia).
  assert (L : 1024 <= Z.log2 (n / d)).
  { rewrite <- (Z.log2_pow2 1024) by lia. apply Z.log2_le_mono. exact Q. }
  set (fl := Z.log2 (n / d)) in *.
  rewrite Z.max_l by lia.
  destruct (Z.leb_spec 0 (fl - 52)); [|lia].
  set (e := fl - 52) in *.
  assert (Pe : 0 < 2 ^ e) by (apply Z.pow_pos_nonneg; lia).
  set (m := nearest_even n (d * 2 ^ e)).
  pose proof (nearest_even_bounds n (d * 2 ^ e) ltac:(lia) ltac:(nia)) as [B _].
  fold m in B.
  assert (S : 2 ^ fl <= n / d) by (apply Z.log2_spec; lia).
  assert (F : 2 ^ fl = 2 ^ e * 2 ^ 52).
  { rewrite <- Z.pow_add_r by lia. f_equal. lia. }
  assert (N : d * (n / d) <= n) by (apply Z.mul_div_le; lia).
  assert (M : 2 ^ 52 <= m) by nia.
  assert (LM : 52 <= Z.log2 m).
  { rewrite <- (Z.log2_pow2 52) by lia. apply Z.log2_le_mono. exact M. }
  destruct (Z.leb_spec 1024 (Z.log2 m + e)); [reflexivity | lia].
Qed.

(** Scaling raises when the numbers do not fit a float: with an [int]
    percentage when the quotient is 2^1024 or more, with a float
    percentage when the value itself is 2^1024 or more. At a percentage
    that is not a number it raises [ValueError], at an infinite one
    [OverflowError] (for a value of 0, [ValueError]). *)
Theorem scale_raises :
  (forall a p, 100 * 2 ^ 1024 <= a * p -> scale a (PInt p) = Raise OverflowError)
  /\ (forall a f, 2 ^ 1024 <= a -> scale a (PFloat f) = Raise OverflowError)
  /\ (forall a, Z.abs a < 2 ^ 53 -> scale a (PFloat NaN) = Raise ValueError)
  /\ (forall a s, Z.abs a < 2 ^ 53 -> a <> 0 ->
        scale a (PFloat (Inf s)) = Raise OverflowError)
  /\ (forall s, scale 0 (PFloat (Inf s)) = Raise ValueError).
Proof.
  split; [|split; [|split; [|split]]].
  - intros a p H. unfold scale. cbn [mul bind truediv].
    change (100 =? 0) with false. cbv iota.
    change (Z.sgn 100) with 1. change (Z.abs 100) with 100. rewrite Z.mul_1_l.
    assert (P : 0 < 2 ^ 1024) by (apply Z.pow_pos_nonneg; lia).
    unfold round64. destruct (Z.eqb_spec (a * p) 0); [lia|].
    replace (Z.abs (a * p)) with (a * p) by lia.
    rewrite round_pos_overflow by lia. reflexivity.
  - intros a f H. unfold scale. cbn [mul to_float]. unfold float_of_int, round64.
    assert (P : 0 < 2 ^ 1024) by (apply Z.pow_pos_nonneg; lia).
    destruct (Z.eqb_spec a 0); [lia|].
    replace (Z.abs a) with a by lia.
    rewrite round_pos_overflow by lia. reflexivity.
  - intros a H. unfold scale. cbn [mul to_float].
    destruct (float_of_int_exact a H) as (f & E & R). rewrite E. cbn [bind].
    destruct f as [m e| |]; try contradiction. cbn [fmul truediv to_float].
    rewrite float_100. reflexivity.
  - intros a s H Hn. unfold scale. cbn [mul to_float].
    destruct (float_of_int_exact a H) as (f & E & R). rewrite E. cbn [bind].
    destruct f as [m e| |]; try contradiction. cbn [fmul represents] in *.
    pose proof (pow2_num_pos e). pose proof (pow2_den_pos e).
    destruct (Z.eqb_spec m 0) as [->|]; [nia|].
    cbn [truediv to_float]. rewrite float_100. reflexivity.
  - intros s. reflexivity.
Qed.

End ScaleMore.

(** ** Percentages that are not positive *)

Module NonPositive.
Import Py RoundFacts ScaleFacts.

(** With an [int] percentage that is zero or negative (the tiered script
    accepts them) every value that is not negative is written as 1. *)
Theorem nonpositive_percentage_gives_one (a p : Z) :
  0 <= a -> p <= 0 -> - 2 ^ 53 < a * p -> scale a (PInt p) = Ok 1.
Proof.
  intros Ha Hp Hb. unfold scale. cbn [mul bind truediv].
  change (100 =? 0) with false. cbv iota.
  change (Z.sgn 100) with 1. change (Z.abs 100) with 100. rewrite Z.mul_1_l.
  assert (Hn : a * p <= 0) by nia.
  destruct (Z.eq_dec (a * p) 0) as [E|Hne].
  - rewrite E. reflexivity.
  - destruct (round64_le_int (Z.abs (a * p)) 100 (2 ^ 52 - 1)
                ltac:(lia) ltac:(lia) ltac:(lia) ltac:(lia)) as (m & e & E & Hm & _).
    unfold round64 in E |- *.
    destruct (Z.eqb_spec (Z.abs (a * p)) 0); [lia|].
    destruct (Z.eqb_spec (a * p) 0); [lia|].
    rewrite Z.abs_idemp in E.
    destruct (round_pos (Z.abs (a * p)) 100) as [[m0 e0]|]; [|discriminate].
    injection E as E1 E2. subst e0.
    replace (Z.sgn (Z.abs (a * p))) with 1 in E1 by lia.
    replace (Z.sgn (a * p)) with (-1) by lia.
    cbn [bind ceil]. f_equal.
    destruct (Z.leb_spec 0 e).
    + assert (0 < 2 ^ e) by (apply Z.pow_pos_nonneg; lia). nia.
    + assert (0 < 2 ^ (- e)) by (apply Z.pow_pos_nonneg; lia).
      replace (- (-1 * m0)) with m0 by lia.
      assert (0 <= m0 / 2 ^ (- e)) by (apply Z.div_pos; lia). lia.
Qed.

Lemma nonpositive_percentage_gives_one_witness : scale 250 (PInt (-50)) = Ok 1.
Proof.
  apply (nonpositive_percentage_gives_one 250 (-50)); [lia | lia | reflexivity].
Defined.

End NonPositive.

(** ** The spawn pass *)

Module SpawnPass.
Import Text Py IO IOFacts Tiered TieredGen ScaleFacts.

Lemma write_spawn_exact p s :
  0 <= value s * p < 2 ^ 53 ->
  write_spawn p s = write (spawn_line s (Z.max 1 (exact_ceil (value s * p) 100))).
Proof. intros H. unfold write_spawn. now rewrite scale_int_exact. Qed.

Lemma write_monster_exact p n m :
  (forall s, In s (spawns m) -> 0 <= value s * p < 2 ^ 53) ->
  write_monster p n m = (exact_spawn_block p m, Ok (n + 1)).
Proof.
  intros H. unfold write_monster, exact_spawn_block.
  rewrite (for_each_write _
             (fun s => spawn_line s (Z.max 1 (exact_ceil (value s * p) 100))))
    by (intros; now apply write_spawn_exact, H).
  rewrite !bind_write. unfold ret. cbn [fst snd write].
  now rewrite append_nil_r.
Qed.

Lemma monsters_loop p monsters : forall n,
  (forall m s, In m monsters -> In s (spawns m) -> 0 <= value s * p < 2 ^ 53) ->
  for_loop (write_monster p) n monsters
  = (join (map (exact_spawn_block p) monsters), Ok (n + Z.of_nat (List.length monsters))).
Proof.
  induction monsters as [|m ms IH]; intros n H; cbn [for_loop map join fold_right List.length].
  - unfold ret. f_equal. f_equal. lia.
  - rewrite write_monster_exact by (intros; apply (H m); auto; now left).
    cbn [bind]. rewrite IH by (intros; apply (H m0); auto; now right).
    f_equal. f_equal. lia.
Qed.

Lemma spawn_appends monsters p output_file fs :
  p <> 100 ->
  (forall m s, In m monsters -> In s (spawns m) -> 0 <= value s * p < 2 ^ 53) ->
  generate_spawn_modifications monsters p output_file fs
  = (set_file output_file
       ((match fs output_file with Some t => t | None => EmptyString end)
        ++ spawn_header p ++ join (map (exact_spawn_block p) monsters)) fs,
     Ok (Z.of_nat (List.length monsters))).
Proof.
  intros Hp H. unfold generate_spawn_modifications.
  destruct (Z.eqb_spec p 100); [contradiction|].
  unfold with_open_a, generate_spawn, spawn_header.
  rewrite !bind_write, (monsters_loop p monsters 0 H). cbn [fst snd].
  rewrite !append_assoc. reflexivity.
Qed.

(** The spawn pass at 100 percent changes no file and returns 0. At any
    other percentage, with the products of the spawn values and the
    percentage in the range where the arithmetic is exact, it keeps what
    the output file holds, adds its header and one block per monster, in
    order, each with one line per spawn, and returns the number of
    monsters. *)
Theorem spawn_pass (monsters : list monster) (p : Z) (output_file : string) (fs : files) :
  (p = 100 -> generate_spawn_modifications monsters p output_file fs = (fs, Ok 0))
  /\ (p <> 100 ->
      (forall m s, In m monsters -> In s (spawns m) -> 0 <= value s * p < 2 ^ 53) ->
      generate_spawn_modifications monsters p output_file fs
      = (set_file output_file
           ((match fs output_file with Some t => t | None => EmptyString end)
            ++ spawn_header p ++ join (map (exact_spawn_block p) monsters)) fs,
         Ok (Z.of_nat (List.length monsters)))).
Proof.
  split.
  - intros ->. reflexivity.
  - apply spawn_appends.
Qed.

Lemma spawn_pass_witness :
  generate_spawn_modifications
    [mkMonster "Hydra" [mkSpawn "motherspawn" 10 "heads"]] 50 "out.c5m" (fun _ => None)
  = (set_file "out.c5m"
       (EmptyString ++ spawn_header 50
        ++ join (map (exact_spawn_block 50) [mkMonster "Hydra" [mkSpawn "motherspawn" 10 "heads"]]))
       (fun _ => None),
     Ok (Z.of_nat (List.length [mkMonster "Hydra" [mkSpawn "motherspawn" 10 "heads"]]))).
Proof.
  apply (proj2 (spawn_pass [mkMonster "Hydra" [mkSpawn "motherspawn" 10 "heads"]] 50
                  "out.c5m" (fun _ => None))); [lia|].
  intros m s [<-|[]] [<-|[]]. cbn. lia.
Defined.

End SpawnPass.

(** ** Tiers *)

Module TierResolution.
Import Text TextFacts Tiered TieredGen ConfigFacts.

Lemma nodup_keys_unique {K V} (d : list (K * V)) k v v' :
  NoDup (map fst d) -> In (k, v) d -> In (k, v') d -> v = v'.
Proof.
  induction d as [|[k0 v0] d IH]; cbn; [contradiction|].
  intros H [E|H1] [E'|H2]; inversion H as [|? ? Hn Hd]; subst.
  - congruence.
  - injection E as -> ->. exfalso. apply Hn.
    change k with (fst (k, v')). now apply in_map.
  - injection E' as -> ->. exfalso. apply Hn.
    change k with (fst (k, v)). now apply in_map.
  - now apply IH.
Qed.

(** A name that belongs to one id only is sent to that id. *)
Lemma name_to_id_get names nm n :
  (forall n', In (n', nm) names -> n' = n) -> In (n, nm) names ->
  dict_get String.eqb nm (name_to_id names) = Some (str_of_int n).
Proof.
  intros U Hin. unfold name_to_id.
  assert (G : forall l d0,
             (forall n', In (n', nm) l -> n' = n) ->
             dict_get String.eqb nm
               (fold_left (fun d (it : Z * string) =>
                             dict_set String.eqb (snd it) (str_of_int (fst it)) d) l d0)
             = if existsb (fun it : Z * string => String.eqb nm (snd it)) l
               then Some (str_of_int n) else dict_get String.eqb nm d0).
  { induction l as [|[i x] l IH]; intros d0 Hu; cbn [fold_left existsb fst snd];
      [reflexivity|].
    rewrite IH by (intros; apply Hu; now right).
    destruct (existsb (fun it : Z * string => String.eqb nm (snd it)) l);
      [now rewrite orb_true_r|].
    rewrite orb_false_r. destruct (String.eqb_spec nm x) as [->|Hne].
    - rewrite (dict_get_set_same String.eqb String.eqb_eq).
      now rewrite (Hu i (or_introl eq_refl)).
    - now rewrite (dict_get_set_other String.eqb String.eqb_eq). }
  rewrite (G names [] U).
  assert (E : existsb (fun it : Z * string => String.eqb nm (snd it)) names = true).
  { apply existsb_exists. exists (n, nm). split; [exact Hin | apply String.eqb_refl]. }
  now rewrite E.
Qed.

(** When one class only is sent to the id [k], the modifier of [k] is the
    percentage of the tier of that class, 100 when the tier is unknown. *)
Lemma tier_modifiers_get tiers ids class_tiers k nm tier :
  (forall cn t', In (cn, t') class_tiers -> dict_get String.eqb cn ids = Some k ->
                 cn = nm /\ t' = tier) ->
  In (nm, tier) class_tiers -> dict_get String.eqb nm ids = Some k ->
  dict_get String.eqb k (tier_modifiers tiers class_tiers ids)
  = Some (get_or tier tiers 100).
Proof.
  intros U Hin Hid. unfold tier_modifiers.
  set (hit := fun it : string * string =>
                match dict_get String.eqb (fst it) ids with
                | Some id => String.eqb k id
                | None => false
                end).
  assert (G : forall l d0,
             (forall cn t', In (cn, t') l -> dict_get String.eqb cn ids = Some k ->
                            cn = nm /\ t' = tier) ->
             dict_get String.eqb k
               (fold_left
                  (fun d (it : string * string) =>
                     match dict_get String.eqb (fst it) ids with
                     | Some ritpow_id =>
                         dict_set String.eqb ritpow_id (get_or (snd it) tiers 100) d
                     | None => d
                     end) l d0)
             = if existsb hit l then Some (get_or tier tiers 100)
               else dict_get String.eqb k d0).
  { induction l as [|[cn t'] l IH]; intros d0 Hu; cbn [fold_left existsb fst snd];
      [reflexivity|].
    rewrite IH by (intros; eapply Hu; eauto; now right).
    destruct (existsb hit l); [now rewrite orb_true_r|].
    rewrite orb_false_r. unfold hit at 1. cbn [fst].
    destruct (dict_get String.eqb cn ids) as [id|] eqn:E; [|reflexivity].
    destruct (String.eqb_spec k id) as [<-|Hne].
    - destruct (Hu cn t' (or_introl eq_refl) E) as [-> ->].
      apply (dict_get_set_same String.eqb String.eqb_eq).
    - now rewrite (dict_get_set_other String.eqb String.eqb_eq). }
  rewrite (G class_tiers [] U).
  assert (E : existsb hit class_tiers = true).
  { apply existsb_exists. exists (nm, tier). split; [exact Hin|].
    unfold hit. cbn [fst]. rewrite Hid. apply String.eqb_refl. }
  now rewrite E.
Qed.

(** With a tier-form configuration, a ritual whose category id carries a
    name that belongs to that id only, and that name has a tier in
    [class_tiers], gets the percentage of that tier in [tiers], and 100
    when [tiers] does not define the tier. The [default] and
    [ritpow_modifiers] keys of the configuration play no part. *)
Theorem tier_resolution (cfg : config) (names : dict Z string) (r : ritual)
    (tiers : dict string Z) (class_tiers : dict string string) (n : Z) (nm tier : string) :
  cfg_tiers cfg = Some tiers -> cfg_class_tiers cfg = Some class_tiers ->
  NoDup (map fst names) -> NoDup (map fst class_tiers) ->
  ritpow r = Some n ->
  dict_get Z.eqb n names = Some nm ->
  (forall n', In (n', nm) names -> n' = n) ->
  dict_get String.eqb nm class_tiers = Some tier ->
  category_percentage cfg names r = get_or tier tiers 100.
Proof.
  intros Ht Hc Nn Nc Hr Hn Hu Hct.
  unfold category_percentage, process_config. rewrite Ht, Hc.
  unfold class_pct. rewrite Hr.
  apply (dict_get_in Z.eqb Z.eqb_eq) in Hn.
  apply (dict_get_in String.eqb String.eqb_eq) in Hct.
  rewrite (tier_modifiers_get tiers (name_to_id names) class_tiers
             (str_of_int n) nm tier); [reflexivity | | exact Hct |].
  - intros cn t' Hin Hid.
    apply (dict_get_in String.eqb String.eqb_eq) in Hid.
    apply name_to_id_entries in Hid. destruct Hid as [[]|(i & Hi & E)].
    apply str_of_int_inj in E. subst i.
    assert (cn = nm) by (apply (nodup_keys_unique names n cn nm Nn Hi Hn)). subst cn.
    split; [reflexivity|]. apply (nodup_keys_unique class_tiers nm t' tier Nc Hin Hct).
  - now apply name_to_id_get.
Qed.

Lemma tier_resolution_witness :
  category_percentage
    (mkConfig (Some 70) None (Some [("S", 50)]) (Some [("Bar", "S")]) None None None)
    [(3, "Foo"); (4, "Bar")]
    (mkRitual "B" [mkCost 0 10] (Some 4) (Some "Bar") None)
  = get_or "S" [("S", 50)] 100.
Proof.
  apply (tier_resolution
           (mkConfig (Some 70) None (Some [("S", 50)]) (Some [("Bar", "S")]) None None None)
           [(3, "Foo"); (4, "Bar")]
           (mkRitual "B" [mkCost 0 10] (Some 4) (Some "Bar") None)
           [("S", 50)] [("Bar", "S")] 4 "Bar" "S");
    try reflexivity.
  - repeat constructor; cbn; intuition discriminate.
  - repeat constructor; cbn; intuition discriminate.
  - intros n' [H|[H|[]]]; [discriminate H | now injection H].
Defined.

End TierResolution.

(** ** The two passes of the tiered script *)

Module Passes.
Import Text Py IO IOFacts Tiered TieredGen SpawnPass.

(** When the ritual pass returns, the output file holds what that pass
    wrote and, when the spawn modifier is not 100 (and the products of the
    spawn values are in the exact range), the spawn section after it; the
    other files are as they were. With a spawn modifier of 100, or none in
    the configuration, the spawn pass does not run. *)
Theorem passes_compose
    (write_header : config -> dict Z string -> string -> files -> io unit)
    (rituals : list ritual) (monsters : list monster) (cfg : config)
    (names : dict Z string) (output_path project_dir : string) (fs : files) (m s : Z) :
  snd (generate write_header rituals cfg names project_dir fs) = Ok (m, s) ->
  let ritual_text := fst (generate write_header rituals cfg names project_dir fs) in
  let spawn_modifier := match cfg_spawn_modifier cfg with Some x => x | None => 100 end in
  let run := main_passes write_header rituals monsters cfg names output_path project_dir fs in
  (spawn_modifier = 100 ->
     snd run = Ok (m, s, None)
     /\ forall path, fst run path
                     = if String.eqb path output_path then Some ritual_text else fs path)
  /\ (spawn_modifier <> 100 ->
      (forall mo sp, In mo monsters -> In sp (spawns mo) ->
                     0 <= value sp * spawn_modifier < 2 ^ 53) ->
      snd run = Ok (m, s, Some (Z.of_nat (List.length monsters)))
      /\ forall path, fst run path
                      = if String.eqb path output_path
                        then Some (ritual_text ++ spawn_header spawn_modifier
                                   ++ join (map (exact_spawn_block spawn_modifier) monsters))
                        else fs path).
Proof.
  intros H ritual_text spawn_modifier run.
  unfold run, main_passes, generate_mod_file, with_open_w. rewrite H.
  fold ritual_text. fold spawn_modifier. split.
  - intros ->. cbn [Z.eqb Pos.eqb fst snd]. split; [reflexivity|].
    intros path. reflexivity.
  - intros Hne Hr. destruct (Z.eqb_spec spawn_modifier 100); [contradiction|].
    rewrite (spawn_appends monsters spawn_modifier output_path
               (set_file output_path ritual_text fs) Hne Hr).
    cbn [fst snd]. split; [reflexivity|].
    intros path. unfold set_file. rewrite String.eqb_refl.
    destruct (String.eqb path output_path); reflexivity.
Qed.

Lemma passes_compose_witness :
  let wh := fun (_ : config) (_ : dict Z string) (_ : string) (_ : files) =>
              write ("# header" ++ nl) in
  let cfg := mkConfig None (Some [("3", 50)]) None None None (Some 50) None in
  let rituals := [mkRitual "A" [mkCost 0 10] (Some 3) (Some "Lore") None] in
  let monsters := [mkMonster "Hydra" [mkSpawn "motherspawn" 10 "heads"]] in
  snd (main_passes wh rituals monsters cfg [(3, "Lore")] "out.c5m" "." (fun _ => None))
  = Ok (1, 0, Some (Z.of_nat (List.length monsters))).
Proof.
  intros wh cfg rituals monsters.
  apply (proj2 (passes_compose wh rituals monsters cfg [(3, "Lore")] "out.c5m" "."
                  (fun _ => None) 1 0 eq_refl)).
  - cbn. lia.
  - intros mo sp [<-|[]] [<-|[]]. cbn. lia.
Defined.

End Passes.

(** ** Parsing the flat source piece by piece *)

Module FlatCompose.
Import Text Flat.

Lemma flush_app R R' cur : flush (R ++ R') cur = (R ++ flush R' cur)%list.
Proof.
  unfold flush. destruct cur as [r|]; [|reflexivity].
  destruct (costs r); [reflexivity | now rewrite app_assoc].
Qed.

(** The rituals gathered before a point of the file are a prefix of the
    result and do not change what is read after it. *)
Lemma parse_line_shift R R' cur l :
  parse_line (mkParser (R ++ R') cur) l
  = mkParser (R ++ rituals (parse_line (mkParser R' cur) l))
             (current_ritual (parse_line (mkParser R' cur) l)).
Proof.
  unfold parse_line. cbn [rituals current_ritual].
  destruct (re_record_start "newritual" (strip (before_hash l))).
  - cbn [rituals current_ritual]. now rewrite flush_app.
  - destruct cur as [r|]; [|reflexivity].
    destruct (re_cost (strip (before_hash l))) as [[t a]|]; reflexivity.
Qed.

Lemma parse_lines_shift lines : forall R R' cur,
  fold_left parse_line lines (mkParser (R ++ R') cur)
  = mkParser (R ++ rituals (fold_left parse_line lines (mkParser R' cur)))
             (current_ritual (fold_left parse_line lines (mkParser R' cur))).
Proof.
  induction lines as [|l lines IH]; intros R R' cur; cbn [fold_left]; [reflexivity|].
  rewrite parse_line_shift.
  destruct (parse_line (mkParser R' cur) l) as [R2 cur2]. cbn [rituals current_ritual].
  apply IH.
Qed.

(** Parsing a file whose second part starts with a record start gives
    the rituals of the first part followed by those of the second. *)
Theorem parse_concat (lines1 lines2 : list string) (line name : string) :
  re_record_start "newritual" (strip (before_hash line)) = Some name ->
  records_of_lines (lines1 ++ line :: lines2)
  = (records_of_lines lines1 ++ records_of_lines (line :: lines2))%list.
Proof.
  intros H. unfold records_of_lines, parse_lines.
  rewrite fold_left_app. cbn [fold_left].
  set (st1 := fold_left parse_line lines1 (mkParser [] None)).
  assert (E1 : parse_line st1 line
               = mkParser (flush (rituals st1) (current_ritual st1) ++ [])
                          (Some (mkRitual name []))).
  { unfold parse_line. rewrite H. now rewrite app_nil_r. }
  assert (E2 : parse_line (mkParser [] None) line = mkParser [] (Some (mkRitual name []))).
  { unfold parse_line. rewrite H. reflexivity. }
  rewrite E1, E2, parse_lines_shift. cbn [rituals current_ritual].
  apply flush_app.
Qed.

Lemma parse_concat_witness :
  let first := ["newritual " ++ quote "A" ++ nl; "cost 0 5" ++ nl] in
  let line := "newritual " ++ quote "B" ++ nl in
  let rest := ["cost 1 7" ++ nl] in
  records_of_lines (first ++ line :: rest)%list
  = (records_of_lines first ++ records_of_lines (line :: rest))%list.
Proof.
  intros first line rest.
  apply (parse_concat first rest line "B"). vm_compute. reflexivity.
Defined.

End FlatCompose.
